(** * A file-manager front end over S3: the gateway of [app/s3_service.py]
      and the navigation data of [app/main.py]

    The development has four layers.
    - [PyStr]: the Python [str] methods the two files use.
    - [S3]: the boto3 client [s3] the gateway talks to, as a deterministic
      state machine over buckets of objects, with a schedule of injected
      provider faults and a trace of the requests made.
    - [s3_service]: the gateway functions, one definition per [def].
    - [main]: the route handlers of the FastAPI application, as far as they
      compute anything (breadcrumbs, parent path, destination keys). *)

From stdpp Require Import gmap strings list sorting pretty.
From Stdlib Require Import Ascii.

Open Scope string_scope.
Open Scope list_scope.
Open Scope nat_scope.

(** ** Python [str] methods *)

Module PyStr.

(** [bool(s)]: a string is truthy when it is not empty. *)
Definition truthy (s : string) : bool :=
  match s with EmptyString => false | String _ _ => true end.

(** [s.lstrip(c)] for a one-character set [c]. *)
Fixpoint lstrip (c : ascii) (s : string) : string :=
  match s with
  | EmptyString => EmptyString
  | String a s' => if Ascii.eqb a c then lstrip c s' else s
  end.

(** [s.rstrip(c)]: a character is dropped when it is [c] and everything
    after it has been dropped. *)
Fixpoint rstrip (c : ascii) (s : string) : string :=
  match s with
  | EmptyString => EmptyString
  | String a s' =>
      let r := rstrip c s' in
      if Ascii.eqb a c && negb (truthy r) then EmptyString else String a r
  end.

(** [s.strip(c)]. *)
Definition strip (c : ascii) (s : string) : string := lstrip c (rstrip c s).

(** [s.split(c)] for a one-character separator: never the empty list,
    [''.split('/') == ['']] and ['a//b'.split('/') == ['a', '', 'b']]. *)
Fixpoint split (c : ascii) (s : string) : list string :=
  match s with
  | EmptyString => [EmptyString]
  | String a s' =>
      if Ascii.eqb a c then EmptyString :: split c s'
      else match split c s' with
           | [] => [String a EmptyString]
           | seg :: segs => String a seg :: segs
           end
  end.

(** [sep.join(l)]. *)
Definition join (sep : string) (l : list string) : string := String.concat sep l.

(** [l[:-1]]. *)
Definition but_last {A} (l : list A) : list A := removelast l.

(** [l[-1]] on the result of a [split], which is never empty. *)
Definition last_segment (l : list string) : string := List.last l EmptyString.

(** [s.startswith(p)] and [s.endswith(c)] for a one-character suffix. *)
Definition startswith (s p : string) : bool := String.prefix p s.

Fixpoint endswith (s : string) (c : ascii) : bool :=
  match s with
  | EmptyString => false
  | String a EmptyString => Ascii.eqb a c
  | String _ s' => endswith s' c
  end.

End PyStr.

Definition slash : ascii := "/"%char.

(** ** The provider: the boto3 client [s3]

    The client is not part of the repository.  It is modelled as far as the
    gateway observes it: buckets map keys to object bodies, listings come in
    key order in pages of [MaxKeys] entries, continuation tokens resume after
    the last entry of the previous page, and every request that passes the
    client's validation of its parameters either returns or raises
    [ClientError] with an error code.  A request raises for a reason
    of its own (missing bucket, missing source key, ...) or because the
    schedule [faults] says that the provider is unavailable for it. *)

Module S3.

Inductive error_code : Type :=
| NoSuchBucket | NoSuchKey | BucketAlreadyOwnedByYou | BucketNotEmpty
| InvalidRequest | MalformedXML | ServiceUnavailable
| InvalidBucketName | InvalidLocationConstraint.

Inductive request : Type :=
| ListBuckets
| ListObjectsV2 (Bucket Prefix : string) (Delimiter ContinuationToken : option string)
| CreateBucket (Bucket LocationConstraint : string)
| DeleteBucket (Bucket : string)
| UploadFileobj (Fileobj Bucket Key : string)
| PutObject (Bucket Key : string)
| DeleteObject (Bucket Key : string)
| DeleteObjects (Bucket : string) (Objects : list string)
| CopyObject (SrcBucket SrcKey Bucket Key : string).

(** The state the gateway runs in: the provider's buckets, the schedule of
    faults still to come (one flag per request, [true] makes the request
    raise; past its end no fault is injected), the requests made so far
    with the error each raised, and what [print] wrote. *)
Record world : Type := World {
  buckets : gmap string (gmap string string);
  faults : list bool;
  trace : list (request * option error_code);
  stdout : list (string * error_code)
}.

(** Python control flow: a call returns a value or raises [ClientError]. *)
Inductive outcome (A : Type) : Type :=
| Return (a : A)
| Raise (e : error_code).
Arguments Return {A} a.
Arguments Raise {A} e.

Definition M (A : Type) : Type := world → world * outcome A.

Definition ret {A} (a : A) : M A := λ w, (w, Return a).

Definition bind {A B} (m : M A) (k : A → M B) : M B :=
  λ w, match m w with
       | (w1, Return a) => k a w1
       | (w1, Raise e) => (w1, Raise e)
       end.

(** [try: body / except ClientError as e: handler]: the state reached
    when the exception was raised is kept. *)
Definition try_except {A} (body : M A) (handler : error_code → M A) : M A :=
  λ w, match body w with
       | (w1, Return a) => (w1, Return a)
       | (w1, Raise e) => handler e w1
       end.

Definition print (msg : string) (e : error_code) : M unit :=
  λ w, (World (buckets w) (faults w) (trace w) (stdout w ++ [(msg, e)]), Return tt).

(** Provider limits: entries per listing page, keys per bulk delete. *)
Definition MaxKeys : nat := 1000.
Definition bulk_delete_limit : nat := 1000.

(** *** Parameter validation

    Before it sends anything the client checks the parameters of a call:
    a [Bucket] must be 1 to 255 letters, digits, ["."], ["-"] and ["_"],
    and a [Key] must have at least one character.  A call that fails the
    check raises [ParamValidationError], which is not a [ClientError]: no
    handler of the gateway catches it and nothing reaches the provider.
    The requests below are the client's on parameters that pass the check;
    what is stated of the gateway for such parameters only says so with
    [valid_bucket_name] and [valid_key]. *)
Definition is_digit (a : ascii) : bool :=
  (48 <=? nat_of_ascii a) && (nat_of_ascii a <=? 57).

Definition is_lower (a : ascii) : bool :=
  (97 <=? nat_of_ascii a) && (nat_of_ascii a <=? 122).

Definition is_upper (a : ascii) : bool :=
  (65 <=? nat_of_ascii a) && (nat_of_ascii a <=? 90).

Fixpoint all_chars (P : ascii → bool) (s : string) : bool :=
  match s with
  | EmptyString => true
  | String a s' => P a && all_chars P s'
  end.

Definition valid_bucket_name (Bucket : string) : bool :=
  (1 <=? String.length Bucket) && (String.length Bucket <=? 255) &&
  all_chars (λ a, is_lower a || is_upper a || is_digit a ||
                  Ascii.eqb a "." || Ascii.eqb a "-" || Ascii.eqb a "_") Bucket.

Definition valid_key (Key : string) : bool := PyStr.truthy Key.

(** The provider's limit on the length of a key, in bytes. *)
Definition max_key_length : nat := 1024.

(** The provider's rules for the name of a new bucket: 3 to 63 lower-case
    letters, digits, ["."] and ["-"], a letter or a digit first and last,
    no two adjacent ["."], not four groups of digits separated by ["."]
    (the form of an IP address), and none of the reserved prefixes and
    suffixes. *)
Definition has_suffix (s suffix : string) : bool :=
  (String.length suffix <=? String.length s) &&
  bool_decide (String.substring (String.length s - String.length suffix)
                 (String.length suffix) s = suffix).

Definition is_alnum (a : ascii) : bool := is_lower a || is_digit a.

Fixpoint last_char (P : ascii → bool) (s : string) : bool :=
  match s with
  | EmptyString => false
  | String a EmptyString => P a
  | String _ s' => last_char P s'
  end.

Definition ip_address_form (s : string) : bool :=
  let groups := PyStr.split "." s in
  (length groups =? 4) && forallb (λ g, PyStr.truthy g && all_chars is_digit g) groups.

Definition acceptable_bucket_name (Bucket : string) : bool :=
  (3 <=? String.length Bucket) && (String.length Bucket <=? 63) &&
  all_chars (λ a, is_alnum a || Ascii.eqb a "." || Ascii.eqb a "-") Bucket &&
  match Bucket with String a _ => is_alnum a | EmptyString => false end &&
  last_char is_alnum Bucket &&
  negb (bool_decide (is_Some (String.index 0 ".." Bucket))) &&
  negb (ip_address_form Bucket) &&
  negb (existsb (λ p, String.prefix p Bucket) ["xn--"; "sthree-"; "amzn-s3-demo-"]) &&
  negb (existsb (has_suffix Bucket)
          ["-s3alias"; "--ol-s3"; ".mrap"; "--x-s3"; "--table-s3"]).

(** One request: consult the fault schedule, run the provider's semantics
    on the buckets, record the request and how it ended. *)
Definition call {A} (r : request)
    (sem : gmap string (gmap string string) →
           error_code + (gmap string (gmap string string) * A)) : M A :=
  λ w,
    match faults w with
    | true :: fs =>
        (World (buckets w) fs (trace w ++ [(r, Some ServiceUnavailable)]) (stdout w),
         Raise ServiceUnavailable)
    | _ =>
        match sem (buckets w) with
        | inl e =>
            (World (buckets w) (tail (faults w)) (trace w ++ [(r, Some e)]) (stdout w),
             Raise e)
        | inr (bs, a) =>
            (World bs (tail (faults w)) (trace w ++ [(r, None)]) (stdout w), Return a)
        end
    end.

(** *** Listing *)

Record object_summary : Type := { Key : string; Size : nat }.

Record listing : Type := {
  CommonPrefixes : option (list string);
  Contents : option (list object_summary);
  IsTruncated : bool;
  NextContinuationToken : option string
}.

Inductive entry : Type :=
| Object (k : string)
| CommonPrefix (p : string).

#[global] Instance entry_eq_dec : EqDecision entry.
Proof. solve_decision. Defined.

Definition marker (e : entry) : string :=
  match e with Object k => k | CommonPrefix p => p end.

Definition object_of (m : gmap string string) (e : entry) : option object_summary :=
  match e with
  | Object k => Some {| Key := k; Size := String.length (default "" (m !! k)) |}
  | CommonPrefix _ => None
  end.

Definition common_prefix_of (e : entry) : option string :=
  match e with Object _ => None | CommonPrefix p => Some p end.

(** Keys of a bucket in the provider's listing order. *)
Definition sorted_keys (m : gmap string string) : list string :=
  merge_sort String.le (map_to_list m).*1.

(** A key strictly after the continuation token, when there is one. *)
Definition after (token : option string) (k : string) : Prop :=
  match token with
  | None => True
  | Some t => ¬ String.le k t
  end.

#[global] Instance after_dec token k : Decision (after token k).
Proof. destruct token; simpl; apply _. Defined.

(** Delimiter grouping: a key whose remainder after the prefix contains
    the delimiter is rolled up into the common prefix that ends at the
    first delimiter. *)
Definition roll_up (prefix delim k : string) : entry :=
  let rest := String.substring (String.length prefix) (String.length k - String.length prefix) k in
  match String.index 0 delim rest with
  | Some i => CommonPrefix (prefix +:+ String.substring 0 (i + String.length delim) rest)
  | None => Object k
  end.

Definition entries (prefix : string) (delim : option string) (ks : list string) : list entry :=
  match delim with
  | Some d => if PyStr.truthy d then remove_dups (roll_up prefix d <$> ks) else Object <$> ks
  | None => Object <$> ks
  end.

Definition present {A} (l : list A) : option (list A) :=
  match l with [] => None | _ :: _ => Some l end.

Definition list_objects_v2_sem (Bucket Prefix : string) (Delimiter Token : option string)
    (bs : gmap string (gmap string string))
    : error_code + (gmap string (gmap string string) * listing) :=
  match bs !! Bucket with
  | None => inl NoSuchBucket
  | Some m =>
      let ks := filter (λ k, PyStr.startswith k Prefix) (sorted_keys m) in
      let es := filter (λ e, after Token (marker e)) (entries Prefix Delimiter ks) in
      let page := take MaxKeys es in
      let more := bool_decide (MaxKeys < length es) in
      inr (bs, {| CommonPrefixes := present (omap common_prefix_of page);
                  Contents := present (omap (object_of m) page);
                  IsTruncated := more;
                  NextContinuationToken := if more then marker <$> last page else None |})
  end.

Definition list_objects_v2 (Bucket Prefix : string) (Delimiter Token : option string)
    : M listing :=
  call (ListObjectsV2 Bucket Prefix Delimiter Token)
       (list_objects_v2_sem Bucket Prefix Delimiter Token).

Definition list_buckets : M (list string) :=
  call ListBuckets (λ bs, inr (bs, merge_sort String.le (map_to_list bs).*1)).

(** *** Buckets *)

(** A new bucket needs a name that follows the provider's rules and is not
    in use.  The location constraint of the gateway is the region of its
    client, which the provider accepts as such for every region but
    [us-east-1]: that one is not a valid constraint. *)
Definition create_bucket (Bucket LocationConstraint : string) : M unit :=
  call (CreateBucket Bucket LocationConstraint)
       (λ bs, if negb (acceptable_bucket_name Bucket) then inl InvalidBucketName
              else if bool_decide (LocationConstraint = "us-east-1")
              then inl InvalidLocationConstraint
              else match bs !! Bucket with
                   | Some _ => inl BucketAlreadyOwnedByYou
                   | None => inr (<[Bucket := ∅]> bs, tt)
                   end).

Definition delete_bucket (Bucket : string) : M unit :=
  call (DeleteBucket Bucket)
       (λ bs, match bs !! Bucket with
              | None => inl NoSuchBucket
              | Some m => if decide (m = ∅) then inr (delete Bucket bs, tt)
                          else inl BucketNotEmpty
              end).

(** *** Objects *)

Definition store (Bucket Key Body : string) (bs : gmap string (gmap string string))
    : error_code + (gmap string (gmap string string) * unit) :=
  match bs !! Bucket with
  | None => inl NoSuchBucket
  | Some m => inr (<[Bucket := <[Key := Body]> m]> bs, tt)
  end.

Definition upload_fileobj (Fileobj Bucket Key : string) : M unit :=
  call (UploadFileobj Fileobj Bucket Key) (store Bucket Key Fileobj).

(** [put_object] without [Body] stores a zero-byte object. *)
Definition put_object (Bucket Key : string) : M unit :=
  call (PutObject Bucket Key) (store Bucket Key "").

(** Deleting a key that is not there succeeds. *)
Definition delete_object (Bucket Key : string) : M unit :=
  call (DeleteObject Bucket Key)
       (λ bs, match bs !! Bucket with
              | None => inl NoSuchBucket
              | Some m => inr (<[Bucket := delete Key m]> bs, tt)
              end).

Definition delete_keys (ks : list string) (m : gmap string string) : gmap string string :=
  foldr delete m ks.

(** Bulk delete: the request must name between one and
    [bulk_delete_limit] keys.  A request that is accepted deletes every key
    it names; the per-key error list of the answer, which the gateway does
    not read, is not modelled. *)
Definition delete_objects (Bucket : string) (Objects : list string) : M unit :=
  call (DeleteObjects Bucket Objects)
       (λ bs, match bs !! Bucket with
              | None => inl NoSuchBucket
              | Some m =>
                  if bool_decide (Objects = [] ∨ bulk_delete_limit < length Objects)
                  then inl MalformedXML
                  else inr (<[Bucket := delete_keys Objects m]> bs, tt)
              end).

(** Server-side copy.  The provider refuses to copy an object onto itself
    when nothing but the location is given. *)
Definition copy_object (SrcBucket SrcKey Bucket Key : string) : M unit :=
  call (CopyObject SrcBucket SrcKey Bucket Key)
       (λ bs, match bs !! SrcBucket, bs !! Bucket with
              | Some src, Some dst =>
                  match src !! SrcKey with
                  | None => inl NoSuchKey
                  | Some body =>
                      if bool_decide (SrcBucket = Bucket ∧ SrcKey = Key)
                      then inl InvalidRequest
                      else inr (<[Bucket := <[Key := body]> dst]> bs, tt)
                  end
              | _, _ => inl NoSuchBucket
              end).

(** *** The paginator of [list_objects_v2]

    [for page in paginator.paginate(Bucket=…, Prefix=…): body(page)]: a
    page is requested, the body runs on it, and the next page is requested
    with the token of the last one as long as the listing is truncated.
    [fuel] bounds the number of pages; running out of it is [None]. *)
Fixpoint paginate_for (fuel : nat) (Bucket Prefix : string) (token : option string)
    (body : listing → M unit) (w : world) : option (world * outcome unit) :=
  match fuel with
  | O => None
  | S fuel' =>
      match list_objects_v2 Bucket Prefix None token w with
      | (w1, Raise e) => Some (w1, Raise e)
      | (w1, Return page) =>
          match body page w1 with
          | (w2, Raise e) => Some (w2, Raise e)
          | (w2, Return _) =>
              match IsTruncated page, NextContinuationToken page with
              | true, Some t => paginate_for fuel' Bucket Prefix (Some t) body w2
              | _, _ => Some (w2, Return tt)
              end
          end
      end
  end.

(** Objects of a bucket (none when the bucket is missing). *)
Definition objects (w : world) (Bucket : string) : gmap string string :=
  default ∅ (buckets w !! Bucket).

(** Enough pages for any listing of the bucket as it is in [w]. *)
Definition page_bound (w : world) (Bucket : string) : nat :=
  S (size (objects w Bucket)).

End S3.

Notation "x <- m ;; k" := (S3.bind m (λ x, k))
  (at level 100, m at next level, right associativity, only parsing).
Notation "m ;;; k" := (S3.bind m (λ _, k))
  (at level 100, right associativity, only parsing).

(** ** The gateway: [app/s3_service.py]

    One definition per [def], run on parameters that pass the client's
    validation ([S3.valid_bucket_name], [S3.valid_key]).  On others the
    client raises before any request is sent, and [except ClientError] does
    not catch that. *)

Module s3_service.
Import S3.

Definition list_buckets : M (list string) :=
  response <- S3.list_buckets ;;
  ret response.

(** [folders] and [files] start empty and are only appended to after the
    listing request has returned, so the handler leaves them empty. *)
Definition list_objects (bucket_name prefix : string) : M (list string * list string) :=
  try_except
    (response <- list_objects_v2 bucket_name prefix (Some "/") None ;;
     let folders :=
       match CommonPrefixes response with
       | Some items => items
       | None => []
       end in
     let files :=
       match Contents response with
       | Some objs => Key <$> filter (λ obj, Key obj ≠ prefix) objs
       | None => []
       end in
     ret (folders, files))
    (λ e, print "Error listing objects:" e ;;; ret ([], [])).

Section Config.
(** [AWS_REGION] comes from [app.config]. *)
Variable AWS_REGION : string.

Definition create_bucket (bucket_name : string) : M bool :=
  try_except
    (S3.create_bucket bucket_name AWS_REGION ;;;
     ret true)
    (λ e, print "Create bucket failed:" e ;;; ret false).
End Config.

(** [for x in l: body(x)]. *)
Fixpoint for_each {A} (l : list A) (body : A → M unit) : M unit :=
  match l with
  | [] => ret tt
  | x :: l' => body x ;;; for_each l' body
  end.

Definition delete_bucket (bucket_name : string) : M bool :=
  try_except
    (response <- list_objects_v2 bucket_name "" None None ;;
     match Contents response with
     | Some objs => for_each objs (λ obj, delete_object bucket_name (Key obj))
     | None => ret tt
     end ;;;
     S3.delete_bucket bucket_name ;;;
     ret true)
    (λ e, print "Delete bucket failed:" e ;;; ret false).

Definition upload_file (bucket_name file_obj key : string) : M bool :=
  try_except
    (upload_fileobj file_obj bucket_name key ;;;
     ret true)
    (λ e, print "Upload failed:" e ;;; ret false).

Definition delete_file (bucket_name key : string) : M bool :=
  try_except
    (delete_object bucket_name key ;;;
     ret true)
    (λ e, print "Delete file failed:" e ;;; ret false).

Definition create_folder (bucket_name folder_path : string) : M bool :=
  try_except
    (let folder_path :=
       if negb (PyStr.endswith folder_path slash) then folder_path +:+ "/"
       else folder_path in
     put_object bucket_name folder_path ;;;
     ret true)
    (λ e, print "Create folder failed:" e ;;; ret false).

Definition copy_file (src_bucket src_key dest_bucket dest_key : string) : M bool :=
  try_except
    (copy_object src_bucket src_key dest_bucket dest_key ;;;
     ret true)
    (λ e, print "Copy failed:" e ;;; ret false).

Definition move_file (src_bucket src_key dest_bucket dest_key : string) : M bool :=
  try_except
    (copy_file src_bucket src_key dest_bucket dest_key ;;;
     delete_file src_bucket src_key ;;;
     ret true)
    (λ e, print "Move failed:" e ;;; ret false).

(** No [try] and no [return]: the outcome is [None] in Python, or the
    exception of the request that raised.  The option around the result
    is the page bound of [paginate_for]. *)
Definition delete_folder (bucket_name folder_prefix : string) (w : world)
    : option (world * outcome unit) :=
  paginate_for (page_bound w bucket_name) bucket_name folder_prefix None
    (λ page,
       match Contents page with
       | Some contents =>
           let objects := Key <$> contents in
           delete_objects bucket_name objects
       | None => ret tt
       end)
    w.

End s3_service.

(** ** The routes: [app/main.py]

    Templates and redirects are rendering; a handler is modelled by what it
    computes and by the gateway call it makes, on form values that FastAPI
    and the client accept.  [copy_file] and [delete_folder] carry the two
    checks themselves ([guard]). *)

Module main.
Import S3.

(** [prefix.strip("/").split("/") if prefix else []] *)
Definition breadcrumbs (prefix : string) : list string :=
  if PyStr.truthy prefix then PyStr.split slash (PyStr.strip slash prefix) else [].

(** ["/".join(prefix.rstrip("/").split("/")[:-1])], then a ["/"] is
    appended when the result is not empty. *)
Definition parent_path (prefix : string) : string :=
  let parent_path := PyStr.join "/" (PyStr.but_last (PyStr.split slash (PyStr.rstrip slash prefix))) in
  if PyStr.truthy parent_path then parent_path +:+ "/" else parent_path.

Record view : Type := {
  bucket : string;
  current_path : string;
  view_breadcrumbs : list string;
  folders : list string;
  files : list string;
  view_parent_path : string
}.

Definition view_bucket (bucket_name prefix : string) : M view :=
  listed <- s3_service.list_objects bucket_name prefix ;;
  ret {| bucket := bucket_name;
         current_path := prefix;
         view_breadcrumbs := breadcrumbs prefix;
         folders := listed.1;
         files := listed.2;
         view_parent_path := parent_path prefix |}.

Definition create_folder (bucket_name prefix folder_name : string) : M unit :=
  let folder_path := prefix +:+ PyStr.strip slash folder_name +:+ "/" in
  s3_service.create_folder bucket_name folder_path ;;;
  ret tt.

(** The destination key keeps the file name of the source key. *)
Definition destination_key (source_key destination_path : string) : string :=
  let file_name := PyStr.last_segment (PyStr.split slash source_key) in
  destination_path +:+ file_name.

(** *** What happens before a handler's requests

    FastAPI answers 422 and does not run the handler when a required form
    field ([Form(...)]) is missing or empty, and the client raises
    [ParamValidationError] out of the handler, before it sends anything,
    when a bucket name or a key fails its validation ([except ClientError]
    does not catch it).  All the parameters of a handler's requests are in
    its first request, so both are decided before any request is made. *)
Inductive refusal : Type :=
| UnprocessableEntity
| ParamValidationError.

Definition guard (required : list string) (valid : bool) : option refusal :=
  if negb (forallb PyStr.truthy required) then Some UnprocessableEntity
  else if negb valid then Some ParamValidationError
  else None.

(** [bucket_name] and [source_key] are required, [destination_path] is
    not. *)
Definition copy_file (bucket_name source_key destination_path : string) (w : world)
    : world * (refusal + outcome unit) :=
  let destination_key := destination_key source_key destination_path in
  match guard [bucket_name; source_key]
          (valid_bucket_name bucket_name && valid_key source_key
           && valid_key destination_key) with
  | Some r => (w, inl r)
  | None =>
      let '(w', o) :=
        (s3_service.copy_file bucket_name source_key bucket_name destination_key ;;;
         ret tt) w in
      (w', inr o)
  end.

Definition move_file (bucket_name source_key destination_path : string) : M unit :=
  s3_service.move_file bucket_name source_key bucket_name
    (destination_key source_key destination_path) ;;;
  ret tt.

(** [f"/bucket/{bucket_name}?prefix={prefix}"], where the routes that act
    inside a bucket redirect to. *)
Definition redirect (bucket_name prefix : string) : string :=
  "/bucket/" +:+ bucket_name +:+ "?prefix=" +:+ prefix.

Definition home : M (list string) :=
  buckets <- s3_service.list_buckets ;;
  ret buckets.

(** [file.filename] and the content of [file.file]. *)
Definition upload_file (bucket_name prefix filename file : string) : M string :=
  let key := prefix +:+ filename in
  s3_service.upload_file bucket_name file key ;;;
  ret (redirect bucket_name prefix).

Definition delete_file (bucket_name key prefix : string) : M string :=
  s3_service.delete_file bucket_name key ;;;
  ret (redirect bucket_name prefix).

(** [bucket_name] and [folder_prefix] are required, [prefix] is not. *)
Definition delete_folder (bucket_name folder_prefix prefix : string) (w : world)
    : option (world * (refusal + outcome string)) :=
  match guard [bucket_name; folder_prefix] (valid_bucket_name bucket_name) with
  | Some r => Some (w, inl r)
  | None =>
      match s3_service.delete_folder bucket_name folder_prefix w with
      | Some (w', Return _) => Some (w', inr (Return (redirect bucket_name prefix)))
      | Some (w', Raise e) => Some (w', inr (Raise e))
      | None => None
      end
  end.

End main.

(** ** The specification's wording of the navigation data *)

(** [split(trim(prefix, "/"), "/")] with the empty strings filtered out. *)
Definition spec_breadcrumbs (prefix : string) : list string :=
  filter (λ seg, seg ≠ "") (PyStr.split slash (PyStr.strip slash prefix)).

(** The segments but the last joined by ["/"], with a trailing ["/"] when
    that is not empty. *)
Definition parent_of_segments (segs : list string) : string :=
  let joined := PyStr.join "/" (PyStr.but_last segs) in
  if PyStr.truthy joined then joined +:+ "/" else "".

Definition spec_parent_path (prefix : string) : string :=
  parent_of_segments (spec_breadcrumbs prefix).

(** [c in s] for a character: a prefix of one segment has no ["/"]. *)
Fixpoint has_char (c : ascii) (s : string) : bool :=
  match s with
  | EmptyString => false
  | String a s' => Ascii.eqb a c || has_char c s'
  end.

(** ** Observations on a run *)

(** The requests made between two states of a run, and the errors that
    they raised. *)
Definition delta (w w' : S3.world) : list (S3.request * option S3.error_code) :=
  drop (length (S3.trace w)) (S3.trace w').

Definition errors (d : list (S3.request * option S3.error_code)) : list S3.error_code :=
  omap snd d.

(** A run in which the last request raised [e] and no request before it
    raised. *)
Definition failed_with (d : list (S3.request * option S3.error_code)) (e : S3.error_code) : Prop :=
  ∃ pre r, d = pre ++ [(r, Some e)] ∧ errors pre = [].

(** [try: request; return True / except ClientError as e: print(msg, e);
    return False] applied to the result of the request. *)
Definition handled (msg : string) (r : S3.world * S3.outcome unit) : S3.world * bool :=
  match r with
  | (w1, S3.Return _) => (w1, true)
  | (w1, S3.Raise e) =>
      (S3.World (S3.buckets w1) (S3.faults w1) (S3.trace w1) (S3.stdout w1 ++ [(msg, e)]),
       false)
  end.

(** The key that [create_folder] stores. *)
Definition folder_key (folder_path : string) : string :=
  if PyStr.endswith folder_path slash then folder_path else folder_path +:+ "/".

(** ** How an operation ends *)





(** An operation that never raises. *)
Definition catches {A} (m : S3.M A) : Prop :=
  ∀ w, ∃ w' a, m w = (w', S3.Return a).

(** ** Paginated listings *)

(** The keys of a bucket that start with a prefix and come after a token,
    in listing order: what [list_objects_v2] has left to return. *)
Definition listed (m : gmap string string) (p : string) (tok : option string) : list string :=
  filter (λ k, S3.after tok k) (filter (λ k, PyStr.startswith k p) (S3.sorted_keys m)).

Definition summary (m : gmap string string) (k : string) : S3.object_summary :=
  {| S3.Key := k; S3.Size := String.length (default "" (m !! k)) |}.

(** The bulk deletes of a run that the provider carried out, all the bulk
    deletes that were requested, and the tokens of the listing requests. *)
Definition deleted_batches (d : list (S3.request * option S3.error_code)) : list (list string) :=
  omap (λ x, match x with (S3.DeleteObjects _ ks, None) => Some ks | _ => None end) d.

Definition delete_requests (d : list (S3.request * option S3.error_code)) : list (list string) :=
  omap (λ x, match x.1 with S3.DeleteObjects _ ks => Some ks | _ => None end) d.

Definition list_tokens (d : list (S3.request * option S3.error_code)) : list (option string) :=
  omap (λ x, match x.1 with S3.ListObjectsV2 _ _ _ tok => Some tok | _ => None end) d.

(** The requests of a folder deletion in which nothing raises, when [c] is
    what is left to list after [tok]: a listing, a bulk delete of the page
    when it is not empty, and the same from the last key of the page on
    when the listing was truncated. *)
Fixpoint paginated_run (fuel : nat) (b p : string) (tok : option string) (c : list string)
    : list (S3.request * option S3.error_code) :=
  match fuel with
  | O => []
  | S fuel' =>
      (S3.ListObjectsV2 b p None tok, None) ::
      match c with
      | [] => []
      | _ :: _ =>
          (S3.DeleteObjects b (take S3.MaxKeys c), None) ::
          if bool_decide (S3.MaxKeys < length c)
          then paginated_run fuel' b p (last (take S3.MaxKeys c)) (drop S3.MaxKeys c)
          else []
      end
  end.

(** The body of the loop of [delete_folder]. *)
Definition delete_page (bucket_name : string) (page : S3.listing) : S3.M unit :=
  match S3.Contents page with
  | Some contents =>
      let objects := S3.Key <$> contents in
      S3.delete_objects bucket_name objects
  | None => S3.ret tt
  end.

(** ** Worlds to run the gateway in *)

(** A world with the given buckets and schedule of faults, and nothing
    requested or printed yet. *)
Definition world_of (bs : list (string * list (string * string))) (fs : list bool) : S3.world :=
  S3.World (list_to_map ((λ b, (b.1, list_to_map b.2)) <$> bs)) fs [] [].

(** The bucket of the specification's scenario, and a bucket with one file
    in a folder. *)
Definition demo_buckets : list (string * list (string * string)) :=
  [("demo", [("docs/", ""); ("docs/readme.txt", "hello"); ("images/logo.png", "png")]);
   ("b", [("a/x.txt", "x")])].

Definition demo : S3.world := world_of demo_buckets [].

(** The same buckets when the provider is unavailable for the first
    request. *)
Definition demo_first_fails : S3.world := world_of demo_buckets [true].


(** A bucket ["big"] with a folder ["f/"] of [n] numbered files, and a
    file outside of the folder. *)
Definition big_folder (n : nat) (fs : list bool) : S3.world :=
  world_of [("big", ("g.txt", "g") :: ((λ i : nat, ("f/" +:+ pretty i, "")) <$> seq 0 n))] fs.

(** ** Folder prefixes and folder views *)

(** A segment of a folder path: not empty and without ["/"]. *)
Definition clean (seg : string) : bool :=
  PyStr.truthy seg && negb (has_char slash seg).

(** The prefix of the folder reached through the given segments:
    [["docs"; "images"]] gives ["docs/images/"], no segment gives the
    root. *)
Fixpoint folder_prefix (segs : list string) : string :=
  match segs with
  | [] => ""
  | seg :: rest => seg +:+ "/" +:+ folder_prefix rest
  end.

(** The entries of the one page that a delimited listing of a prefix
    returns. *)
Definition shown (m : gmap string string) (p : string) : list S3.entry :=
  take S3.MaxKeys
    (remove_dups (S3.roll_up p "/" <$> filter (λ k, PyStr.startswith k p) (S3.sorted_keys m))).

(** The folders and files that [list_objects] makes of a page. *)
Definition shown_folders (m : gmap string string) (p : string) : list string :=
  omap S3.common_prefix_of (shown m p).

Definition shown_files (m : gmap string string) (p : string) : list string :=
  S3.Key <$> filter (λ obj, S3.Key obj ≠ p) (omap (S3.object_of m) (shown m p)).

(** What a run may do to the buckets when it only deletes objects of
    bucket [b]: the other buckets are as they were, [b] is there if and
    only if it was, and every object of [b] was there before, with the
    same body. *)
Definition shrinks (b : string) (w w' : S3.world) : Prop :=
  (∀ b', b' ≠ b → S3.buckets w' !! b' = S3.buckets w !! b') ∧
  (is_Some (S3.buckets w' !! b) ↔ is_Some (S3.buckets w !! b)) ∧
  (∀ k v, S3.objects w' b !! k = Some v → S3.objects w b !! k = Some v).

(** The bucket of the scenario when the provider is unavailable for the
    second request. *)
Definition demo_second_fails : S3.world := world_of demo_buckets [false; true].

(** The same when it is unavailable for the third request. *)
Definition demo_third_fails : S3.world := world_of demo_buckets [false; false; true].

Import S3.

(** * Python strings *)

Section PyStrFacts.
Import PyStr.
Variable c : ascii.

Lemma lstrip_id s : startswith s (String c "") = false → lstrip c s = s.
Proof.
  destruct s as [|a s]; simpl; [done|].
  destruct (Ascii.eqb_spec a c) as [->|Hne].
  - destruct (ascii_dec c c); [|done]. by destruct s.
  - done.
Qed.

Lemma rstrip_head s : startswith s (String c "") = false →
  startswith (rstrip c s) (String c "") = false.
Proof.
  destruct s as [|a s]; simpl; [done|].
  destruct (ascii_dec c a) as [->|Hne]; [by destruct s|].
  intros _. destruct (Ascii.eqb_spec a c) as [->|_]; [done|]. simpl.
  destruct (ascii_dec c a); [done|]. done.
Qed.

(** Without a leading separator, stripping both ends is stripping the
    right end. *)
Lemma strip_rstrip s : startswith s (String c "") = false → strip c s = rstrip c s.
Proof. intros H. unfold strip. by apply lstrip_id, rstrip_head. Qed.

Lemma rstrip_no_char s : has_char c s = false → rstrip c s = s.
Proof.
  induction s as [|a s IH]; simpl; [done|].
  intros [Ha Hs]%orb_false_elim. rewrite Ha, (IH Hs). done.
Qed.

Lemma rstrip_snoc s : rstrip c (s +:+ String c "") = rstrip c s.
Proof.
  induction s as [|a s IH]; simpl.
  - by rewrite Ascii.eqb_refl.
  - by rewrite IH.
Qed.

Lemma split_no_char s : has_char c s = false → split c s = [s].
Proof.
  induction s as [|a s IH]; simpl; [done|].
  intros [Ha Hs]%orb_false_elim. by rewrite Ha, (IH Hs).
Qed.

Lemma split_not_nil s : split c s ≠ [].
Proof.
  destruct s as [|a s]; simpl; [done|].
  destruct (Ascii.eqb a c); [done|]. by destruct (split c s).
Qed.

End PyStrFacts.

(** * More on Python strings *)

Section PyStrMore.
Import PyStr.
Variable c : ascii.

Lemma append_cons a (s t : string) : String a s +:+ t = String a (s +:+ t).
Proof. reflexivity. Qed.

Lemma append_assoc (s t u : string) : (s +:+ t) +:+ u = s +:+ (t +:+ u).
Proof. induction s as [|a s IH]; [done|]. by rewrite !append_cons, IH. Qed.

Lemma append_nil_r (s : string) : s +:+ "" = s.
Proof. induction s as [|a s IH]; [done|]. by rewrite append_cons, IH. Qed.

Lemma length_append (s t : string) :
  String.length (s +:+ t) = String.length s + String.length t.
Proof. induction s as [|a s IH]; [done|]. rewrite append_cons. simpl. by rewrite IH. Qed.

Lemma split_nonempty s : ∃ seg segs, split c s = seg :: segs.
Proof.
  destruct s as [|a s]; simpl; [by eauto|].
  destruct (Ascii.eqb a c); [by eauto|]. destruct (split c s); eauto.
Qed.

(** [(s + c + t).split(c) == s.split(c) + t.split(c)]. *)
Lemma split_app_sep s t : split c (s +:+ String c t) = split c s ++ split c t.
Proof.
  induction s as [|a s IH].
  - change ("" +:+ String c t) with (String c t). simpl. by rewrite Ascii.eqb_refl.
  - rewrite append_cons. simpl. rewrite IH. destruct (Ascii.eqb a c); [done|].
    by destruct (split_nonempty s) as (seg & segs & ->).
Qed.

Lemma last_segment_app (l1 l2 : list string) :
  l2 ≠ [] → last_segment (l1 ++ l2) = last_segment l2.
Proof.
  intros Hl2. unfold last_segment.
  destruct (exists_last Hl2) as (l & x & ->). by rewrite app_assoc, !last_last.
Qed.


Lemma endswith_inv s : endswith s c = true → ∃ s', s = s' +:+ String c "".
Proof.
  induction s as [|a s IH]; simpl; [done|].
  destruct s as [|a' s].
  - intros ->%Ascii.eqb_eq. by exists "".
  - intros [s' Hs']%IH. exists (String a s'). by rewrite append_cons, <- Hs'.
Qed.

(** A clean segment survives [rstrip] at the end of any string. *)
Lemma rstrip_app_clean s seg :
  seg ≠ "" → has_char c seg = false → rstrip c (s +:+ seg) = s +:+ seg.
Proof.
  intros Hne Hseg. induction s as [|a s IH].
  - by apply rstrip_no_char.
  - rewrite append_cons. simpl. rewrite IH.
    destruct (s +:+ seg) eqn:Hs; [by destruct s, seg|].
    simpl. by rewrite andb_false_r.
Qed.

Lemma startswith_char a s : startswith (String a s) (String c "") = Ascii.eqb a c.
Proof.
  unfold startswith. simpl. destruct (ascii_dec c a) as [->|Hne].
  - rewrite Ascii.eqb_refl. by destruct s.
  - symmetry. apply Ascii.eqb_neq. congruence.
Qed.

End PyStrMore.

Section Segments.
Import PyStr.
Variable c : ascii.

Lemma split_segments s : Forall (λ seg, has_char c seg = false) (split c s).
Proof.
  induction s as [|a s IH]; [by repeat constructor|]. simpl.
  destruct (Ascii.eqb a c) eqn:Ha; [by constructor|].
  destruct (split c s) as [|seg segs]; [by repeat constructor; simpl; rewrite Ha|].
  apply Forall_cons in IH as [Hseg Hsegs]. constructor; [|done]. simpl. by rewrite Ha.
Qed.

Lemma join_cons x y l :
  join (String c "") (x :: y :: l) = x +:+ String c (join (String c "") (y :: l)).
Proof. reflexivity. Qed.

(** Splitting what was joined gives the segments back. *)
Lemma split_join l :
  l ≠ [] → Forall (λ seg, has_char c seg = false) l → split c (join (String c "") l) = l.
Proof.
  induction l as [|x l IH]; [done|]. intros _ [Hx Hl]%Forall_cons.
  destruct l as [|y l]; [by apply split_no_char|].
  rewrite join_cons, split_app_sep, (split_no_char c x Hx), IH by done. done.
Qed.

(** Joining what was split gives the string back. *)
Lemma join_split s : join (String c "") (split c s) = s.
Proof.
  induction s as [|a s IH]; [done|]. simpl.
  destruct (Ascii.eqb a c) eqn:Ha.
  - apply Ascii.eqb_eq in Ha as ->.
    destruct (split_nonempty c s) as (seg & segs & Hs). rewrite Hs in *.
    rewrite join_cons. by rewrite IH.
  - destruct (split c s) as [|seg segs] eqn:Hs; [by destruct (split_not_nil c s)|].
    destruct segs as [|y l]; simpl in *; by rewrite <- IH.
Qed.

Lemma join_truthy_two x y l : truthy (join (String c "") (x :: y :: l)) = true.
Proof. rewrite join_cons. by destruct x. Qed.

Lemma elem_of_but_last {A} (x : A) l : x ∈ but_last l → x ∈ l.
Proof.
  unfold but_last. induction l as [|y l IH]; [done|]. simpl.
  destruct l as [|z l]; [by intros ?%elem_of_nil|].
  intros [->|Hx]%elem_of_cons; [by left|]. right. by apply IH.
Qed.

Lemma Forall_but_last {A} (P : A → Prop) l : Forall P l → Forall P (but_last l).
Proof.
  rewrite !Forall_forall. intros Hl x Hx. by apply Hl, elem_of_but_last.
Qed.

Lemma rstrip_endswith s : endswith (rstrip c s) c = false.
Proof.
  induction s as [|a s IH]; [done|]. simpl.
  destruct (rstrip c s) as [|b r] eqn:Hr; simpl.
  - destruct (Ascii.eqb a c) eqn:Ha; simpl; [done|by rewrite Ha].
  - by rewrite andb_false_r.
Qed.

(** The last segment of a string that does not end with the separator is
    not empty, unless the string is. *)
Lemma last_segment_nonempty s :
  s ≠ "" → endswith s c = false → last_segment (split c s) ≠ "".
Proof.
  induction s as [|a s IH]; [done|]. intros _ Hend.
  destruct s as [|b s].
  - simpl in *. by rewrite Hend.
  - assert (Hs : last_segment (split c (String b s)) ≠ "") by (by apply IH).
    change (split c (String a (String b s)))
      with (if Ascii.eqb a c then "" :: split c (String b s)
            else match split c (String b s) with
                 | [] => [String a ""]
                 | seg :: segs => String a seg :: segs
                 end).
    destruct (split_nonempty c (String b s)) as (seg & segs & Hsplit).
    rewrite Hsplit in *. destruct (Ascii.eqb a c); [done|].
    destruct segs; [done|]. done.
Qed.

Lemma lstrip_head s : startswith (lstrip c s) (String c "") = false.
Proof.
  induction s as [|a s IH]; [done|]. simpl.
  destruct (Ascii.eqb a c) eqn:Ha; [done|]. by rewrite startswith_char.
Qed.

Lemma has_char_startswith s : has_char c s = false → startswith s (String c "") = false.
Proof. destruct s as [|a s]; [done|]. rewrite startswith_char. simpl. by intros [? _]%orb_false_elim. Qed.

(** A string with a separator has at least two segments. *)
Lemma split_two s : has_char c s = true → ∃ x y l, split c s = x :: y :: l.
Proof.
  induction s as [|a s IH]; [done|]. simpl.
  destruct (split_nonempty c s) as (seg & segs & Hs).
  destruct (Ascii.eqb a c) eqn:Ha; simpl.
  - intros _. rewrite Hs. eauto.
  - intros (x & y & l & Hsplit)%IH. rewrite Hsplit. eauto.
Qed.

(** The first segment of a string that does not start with the separator
    starts as the string does. *)
Lemma split_head a s :
  Ascii.eqb a c = false → ∃ seg segs, split c (String a s) = String a seg :: segs.
Proof.
  intros Ha. simpl. rewrite Ha.
  destruct (split c s) as [|seg segs]; eauto.
Qed.

End Segments.

Lemma parent_of_segments_head s :
  PyStr.startswith s "/" = false →
  PyStr.startswith (parent_of_segments (PyStr.split slash s)) "/" = false.
Proof.
  destruct s as [|a s]; [done|]. change "/" with (String slash "").
  rewrite startswith_char. intros Ha.
  destruct (split_head slash a s Ha) as (seg & segs & ->).
  unfold parent_of_segments, PyStr.but_last. destruct segs as [|y l]; [done|].
  change (removelast (String a seg :: y :: l)) with (String a seg :: removelast (y :: l)).
  destruct (removelast (y :: l)) as [|z l']; cbn -[PyStr.startswith].
  all: rewrite !append_cons; cbn -[PyStr.startswith]; rewrite ?append_cons;
    by rewrite startswith_char.
Qed.

(** Filtering changes nothing exactly when nothing is to be filtered. *)
Lemma filter_nonempty_id (l : list string) :
  filter (λ seg, seg ≠ "") l = l ↔ "" ∉ l.
Proof.
  induction l as [|x l IH]; [by rewrite filter_nil; split; [set_solver|]|].
  rewrite filter_cons. destruct (decide (x ≠ "")) as [Hx|Hx].
  - rewrite not_elem_of_cons. split.
    + intros [= H]. split; [done|]. by apply IH.
    + intros [_ H]. f_equal. by apply IH.
  - apply dec_stable in Hx. subst x. split.
    + intros H. assert (Hlen : length (filter (λ seg, seg ≠ "") l) = length ("" :: l))
        by by rewrite H.
      pose proof (length_filter (λ seg, seg ≠ "") l) as Hle. simpl in Hlen. lia.
    + intros H. exfalso. apply H. by left.
Qed.

(** * Navigation data *)

(** The code's breadcrumbs are the filtered ones exactly when the prefix is
    empty or its trimmed form has no empty segment. *)
Lemma breadcrumbs_filtered (prefix : string) :
  main.breadcrumbs prefix = spec_breadcrumbs prefix ↔
  prefix = "" ∨ "" ∉ PyStr.split slash (PyStr.strip slash prefix).
Proof.
  unfold spec_breadcrumbs. destruct prefix as [|a s].
  - split; [by left|reflexivity].
  - change (main.breadcrumbs (String a s))
      with (PyStr.split slash (PyStr.strip slash (String a s))).
    split.
    + intros H. right. by apply filter_nonempty_id.
    + intros [?|H]; [done|]. symmetry. by apply filter_nonempty_id.
Qed.

(** C5, as stated, fails: a prefix made of one ["/"] is not empty, so it is
    trimmed and split, and the empty segment that results is kept, where
    the filtered sequence is empty. *)
Lemma C5_breadcrumbs_not_filtered :
  main.breadcrumbs "/" = [""] ∧ spec_breadcrumbs "/" = [] ∧
  main.breadcrumbs "a//b/" = ["a"; ""; "b"] ∧ spec_breadcrumbs "a//b/" = ["a"; "b"].
Proof. repeat split; reflexivity. Qed.

(** C5, amended: the breadcrumbs of the empty prefix are empty, and those of
    any other prefix are the prefix trimmed of ["/"] at both ends and split
    on ["/"], nothing filtered.  They are the filtered sequence of the
    specification exactly when the prefix is empty or its trimmed form has
    no empty segment; ["docs/images/"] gives [["docs"; "images"]]. *)
Theorem C5_breadcrumbs (prefix : string) :
  (prefix = "" → main.breadcrumbs prefix = []) ∧
  (prefix ≠ "" →
   main.breadcrumbs prefix = PyStr.split slash (PyStr.strip slash prefix)) ∧
  (main.breadcrumbs prefix = spec_breadcrumbs prefix ↔
   prefix = "" ∨ "" ∉ PyStr.split slash (PyStr.strip slash prefix)) ∧
  main.breadcrumbs "docs/images/" = ["docs"; "images"].
Proof.
  split; [by intros ->|]. split; [by destruct prefix|]. split; [|reflexivity].
  apply breadcrumbs_filtered.
Qed.

Lemma C5_breadcrumbs_witness :
  main.breadcrumbs "docs/images/" = spec_breadcrumbs "docs/images/" ∧
  main.breadcrumbs "docs" = PyStr.split slash (PyStr.strip slash "docs").
Proof.
  split.
  - destruct (C5_breadcrumbs "docs/images/") as (_ & _ & [_ Hspec] & _).
    apply Hspec. right. vm_compute.
    intros H. repeat (apply elem_of_cons in H as [H|H]; [discriminate H|]).
    by apply elem_of_nil in H.
  - destruct (C5_breadcrumbs "docs") as (_ & Hcode & _). by apply Hcode.
Defined.

(** The parent path is computed from the segments of the prefix with only
    its right end trimmed. *)
Lemma parent_path_segments prefix :
  main.parent_path prefix
  = parent_of_segments (PyStr.split slash (PyStr.rstrip slash prefix)).
Proof.
  unfold main.parent_path, parent_of_segments.
  by destruct (PyStr.join "/" _).
Qed.

(** A leading ["/"] that is followed by more than one segment stays in
    the parent path. *)
Lemma parent_path_leading_slash rest :
  has_char slash (PyStr.rstrip slash rest) = true →
  main.parent_path ("/" +:+ rest)
  = "/" +:+ PyStr.join "/" (PyStr.but_last (PyStr.split slash (PyStr.rstrip slash rest)))
        +:+ "/".
Proof.
  intros Hrest. rewrite parent_path_segments.
  change ("/" +:+ rest) with (String slash rest).
  cbn [PyStr.rstrip]. destruct (split_two slash _ Hrest) as (x & y & l & Hsplit).
  assert (PyStr.truthy (PyStr.rstrip slash rest) = true) as ->
    by (by destruct (PyStr.rstrip slash rest)).
  cbn [negb]. rewrite andb_false_r.
  cbn [PyStr.split]. rewrite Ascii.eqb_refl, Hsplit.
  unfold parent_of_segments, PyStr.but_last.
  change (removelast ("" :: x :: y :: l)) with ("" :: x :: removelast (y :: l)).
  change (PyStr.join "/" ("" :: x :: removelast (y :: l)))
    with (String slash (PyStr.join "/" (x :: removelast (y :: l)))).
  reflexivity.
Qed.

(** When the segments of a right-trimmed string and the filtered segments
    of the string trimmed at both ends have the same parent. *)
Lemma parent_of_segments_filtered r :
  PyStr.endswith r slash = false →
  parent_of_segments (PyStr.split slash r)
  = parent_of_segments (filter (λ seg, seg ≠ "") (PyStr.split slash (PyStr.lstrip slash r))) ↔
  "" ∉ PyStr.but_last (PyStr.split slash r) ∨ PyStr.but_last (PyStr.split slash r) = [""].
Proof.
  intros Hend.
  assert (HS : PyStr.split slash r
               = PyStr.but_last (PyStr.split slash r)
                 ++ [PyStr.last_segment (PyStr.split slash r)])
    by (apply app_removelast_last, split_not_nil).
  pose proof (split_segments slash r) as Hfree.
  destruct (decide ("" ∈ PyStr.but_last (PyStr.split slash r))) as [Hin|Hnin];
    [destruct (decide (PyStr.but_last (PyStr.split slash r) = [""])) as [HB|HB]|].
  - split; [by right|]. intros _. rewrite HB in HS.
    destruct r as [|a r']; [done|]. simpl in HS. destruct (Ascii.eqb a slash) eqn:Ha.
    + injection HS as Hr'. cbn [PyStr.lstrip]. rewrite Ha.
      pose proof (join_split slash r') as Hjoin. rewrite Hr' in Hjoin. simpl in Hjoin.
      pose proof (split_segments slash r') as Hx. rewrite Hr' in Hx.
      apply Forall_cons in Hx as [Hx _]. rewrite Hjoin in Hx.
      rewrite lstrip_id by (by apply has_char_startswith).
      rewrite (split_no_char slash r' Hx). cbn [PyStr.split]. rewrite Ha, (split_no_char slash r' Hx).
      rewrite filter_cons, filter_nil. by destruct (decide (r' ≠ "")).
    + by destruct (PyStr.split slash r') as [|seg segs].
  - split; [|by intros [?|?]]. intros Heq. exfalso.
    set (B := PyStr.but_last (PyStr.split slash r)) in *.
    assert (HBfree : Forall (λ seg, has_char slash seg = false) B)
      by (by apply Forall_but_last).
    assert (HBne : B ≠ []) by (intros HBnil; rewrite HBnil in Hin; by apply elem_of_nil in Hin).
    assert (Htruthy : PyStr.truthy (PyStr.join "/" B) = true).
    { destruct B as [|x [|y l]]; [done| |apply (join_truthy_two slash)].
      apply list_elem_of_singleton in Hin. by subst x. }
    apply (f_equal (PyStr.split slash)) in Heq.
    unfold parent_of_segments at 1 in Heq. fold B in Heq. rewrite Htruthy in Heq.
    change "/" with (String slash "") in Heq.
    rewrite split_app_sep, (split_join slash B HBne HBfree) in Heq.
    set (F := filter (λ seg, seg ≠ "") (PyStr.split slash (PyStr.lstrip slash r))) in *.
    assert (HF : Forall (λ seg, has_char slash seg = false) (PyStr.but_last F)).
    { apply Forall_but_last. unfold F. apply Forall_forall.
      intros seg [_ Hseg]%list_elem_of_filter. revert seg Hseg.
      apply Forall_forall, split_segments. }
    unfold parent_of_segments in Heq.
    destruct (PyStr.truthy (PyStr.join "/" (PyStr.but_last F))) eqn:HF'.
    + assert (HFne : PyStr.but_last F ≠ []) by (by intros HFnil; rewrite HFnil in HF').
      change "/" with (String slash "") in Heq.
      rewrite split_app_sep, (split_join slash _ HFne HF) in Heq.
      apply app_inj_tail in Heq as [HBF _]. rewrite HBF in Hin.
      apply elem_of_but_last in Hin. unfold F in Hin.
      by apply list_elem_of_filter in Hin as [Hne _].
    + simpl in Heq. by apply (app_inj_tail B []) in Heq as [? _].
  - split; [by left|]. intros _.
    destruct r as [|a r']; [reflexivity|].
    assert (Hlast : PyStr.last_segment (PyStr.split slash (String a r')) ≠ "")
      by (by apply last_segment_nonempty).
    assert (Hnone : "" ∉ PyStr.split slash (String a r')).
    { rewrite HS. intros [?|Hl%list_elem_of_singleton]%elem_of_app; [done|].
      by apply Hlast. }
    destruct (Ascii.eqb a slash) eqn:Ha.
    { exfalso. apply Hnone. cbn [PyStr.split]. rewrite Ha. left. }
    cbn [PyStr.lstrip]. rewrite Ha. f_equal. symmetry. by apply filter_nonempty_id.
Qed.


(** C6, as stated, fails: the parent path is computed from the prefix with
    only its right end trimmed, so a leading ["/"] stays in it, while the
    breadcrumbs have lost it. *)
Lemma C6_parent_path_keeps_leading_slash :
  main.breadcrumbs "/a/b/" = ["a"; "b"] ∧
  parent_of_segments (main.breadcrumbs "/a/b/") = "a/" ∧
  spec_parent_path "/a/b/" = "a/" ∧
  main.parent_path "/a/b/" = "/a/".
Proof. repeat split; reflexivity. Qed.

(** C6, amended: for every prefix, the parent path is all segments of the
    prefix with only its trailing ["/"] removed (split on ["/"], nothing
    filtered, a leading ["/"] kept) except the last, joined by ["/"], with
    a trailing ["/"] when that is not empty and the empty string otherwise.
    It is the value the specification computes from the breadcrumbs exactly
    when none of those segments but the last is empty, or the only one is;
    it is that value computed from the breadcrumbs of the code exactly when
    the prefix does not start with ["/"] or at most one segment follows its
    first ["/"].  Otherwise the leading ["/"] stays: a ["/"] followed by
    more than one segment gives ["/"], the segments that follow it but the
    last joined by ["/"], and a ["/"].  The empty prefix and every prefix of
    one segment, with or without its final ["/"], have the empty parent
    path, and ["docs/images/"] has ["docs/"]. *)
Theorem C6_parent_path (prefix : string) :
  main.parent_path prefix
    = parent_of_segments (PyStr.split slash (PyStr.rstrip slash prefix)) ∧
  (main.parent_path prefix = spec_parent_path prefix ↔
   "" ∉ PyStr.but_last (PyStr.split slash (PyStr.rstrip slash prefix)) ∨
   PyStr.but_last (PyStr.split slash (PyStr.rstrip slash prefix)) = [""]) ∧
  (main.parent_path prefix = parent_of_segments (main.breadcrumbs prefix) ↔
   PyStr.startswith prefix "/" = false ∨
   ∃ rest, prefix = "/" +:+ rest ∧ has_char slash (PyStr.rstrip slash rest) = false) ∧
  (∀ rest, prefix = "/" +:+ rest → has_char slash (PyStr.rstrip slash rest) = true →
     main.parent_path prefix
     = "/" +:+ PyStr.join "/" (PyStr.but_last (PyStr.split slash (PyStr.rstrip slash rest)))
           +:+ "/") ∧
  (PyStr.startswith prefix "/" = false →
   main.parent_path prefix = parent_of_segments (main.breadcrumbs prefix)) ∧
  (PyStr.startswith prefix "/" = false →
   prefix = "" ∨ "" ∉ PyStr.split slash (PyStr.strip slash prefix) →
   main.parent_path prefix = spec_parent_path prefix) ∧
  main.parent_path "" = "" ∧
  (has_char slash prefix = false →
   main.parent_path prefix = "" ∧ main.parent_path (prefix +:+ "/") = "") ∧
  main.parent_path "docs/" = "" ∧
  main.parent_path "docs/images/" = "docs/".
Proof.
  assert (Hcode : PyStr.startswith prefix "/" = false →
    main.parent_path prefix = parent_of_segments (main.breadcrumbs prefix)).
  { intros Hlead. unfold main.parent_path, parent_of_segments.
    assert (Hsegs : PyStr.but_last (main.breadcrumbs prefix)
                    = PyStr.but_last (PyStr.split slash (PyStr.rstrip slash prefix))).
    { destruct prefix as [|a s]; [reflexivity|].
      change (main.breadcrumbs (String a s))
        with (PyStr.split slash (PyStr.strip slash (String a s))).
      by rewrite (strip_rstrip slash). }
    rewrite Hsegs.
    destruct (PyStr.join "/" _) eqn:Hj; reflexivity. }
  split; [apply parent_path_segments|]. split.
  { rewrite parent_path_segments. unfold spec_parent_path, spec_breadcrumbs, PyStr.strip.
    apply parent_of_segments_filtered, rstrip_endswith. }
  split.
  { split.
    - intros Heq. destruct prefix as [|a rest]; [by left|].
      destruct (Ascii.eqb a slash) eqn:Ha;
        [|left; change "/" with (String slash ""); by rewrite startswith_char].
      apply Ascii.eqb_eq in Ha as ->.
      destruct (has_char slash (PyStr.rstrip slash rest)) eqn:Hrest;
        [|right; by exists rest].
      exfalso.
      change (String slash rest) with ("/" +:+ rest) in Heq at 1.
      rewrite (parent_path_leading_slash rest Hrest) in Heq.
      assert (Hhead : PyStr.startswith
                        (parent_of_segments (main.breadcrumbs (String slash rest))) "/"
                      = false).
      { change (main.breadcrumbs (String slash rest))
          with (PyStr.split slash (PyStr.strip slash (String slash rest))).
        apply parent_of_segments_head. change "/" with (String slash "").
        apply lstrip_head. }
      rewrite <- Heq, append_cons, startswith_char in Hhead. discriminate Hhead.
    - intros [Hlead|(rest & -> & Hrest)]; [by apply Hcode|].
      rewrite parent_path_segments. change ("/" +:+ rest) with (String slash rest).
      change (main.breadcrumbs (String slash rest))
        with (PyStr.split slash (PyStr.strip slash (String slash rest))).
      unfold PyStr.strip. cbn [PyStr.rstrip].
      remember (PyStr.rstrip slash rest) as r eqn:Hr.
      destruct (PyStr.truthy r) eqn:Ht.
      + cbn [negb]. rewrite andb_false_r.
        cbn [PyStr.lstrip PyStr.split]. rewrite Ascii.eqb_refl.
        rewrite lstrip_id by (by apply has_char_startswith).
        by rewrite (split_no_char slash _ Hrest).
      + destruct r; [|done]. by rewrite Ascii.eqb_refl. }
  split; [by intros rest -> Hrest; apply parent_path_leading_slash|].
  split; [exact Hcode|]. split.
  { intros Hlead Hseg. rewrite (Hcode Hlead). unfold spec_parent_path. f_equal.
    by apply breadcrumbs_filtered. }
  split; [reflexivity|]. split; [|split; reflexivity].
  intros Hno. unfold main.parent_path.
  change "/" with (String slash "") at 3.
  rewrite (rstrip_snoc slash), (rstrip_no_char slash) by done.
  by rewrite (split_no_char slash).
Qed.

Lemma C6_parent_path_witness :
  main.parent_path "docs/images/" = parent_of_segments (main.breadcrumbs "docs/images/") ∧
  main.parent_path "docs/images/" = spec_parent_path "docs/images/" ∧
  main.parent_path "docs" = "" ∧ main.parent_path ("docs" +:+ "/") = "" ∧
  main.parent_path "/docs/" = spec_parent_path "/docs/" ∧
  main.parent_path "/" = spec_parent_path "/" ∧
  main.parent_path "/a/b/" = "/a/" ∧
  main.parent_path "/a/b/" ≠ spec_parent_path "/a/b/" ∧
  main.parent_path "a//b/" ≠ spec_parent_path "a//b/".
Proof.
  destruct (C6_parent_path "docs/images/") as (_ & _ & _ & _ & Hcode & Hspec & _).
  destruct (C6_parent_path "docs") as (_ & _ & _ & _ & _ & _ & _ & Hone & _).
  destruct (C6_parent_path "/docs/") as (_ & [_ Hdocs] & _).
  destruct (C6_parent_path "/") as (_ & [_ Hroot] & _).
  destruct (C6_parent_path "/a/b/") as (_ & [Hab _] & _ & Hlead & _).
  destruct (C6_parent_path "a//b/") as (_ & [Hdouble _] & _).
  split; [by apply Hcode|]. split.
  { apply Hspec; [reflexivity|]. right. vm_compute.
    intros H. repeat (apply elem_of_cons in H as [H|H]; [discriminate H|]).
    by apply elem_of_nil in H. }
  split; [by apply Hone|]. split; [by apply Hone|].
  split; [apply Hdocs; by right|]. split; [apply Hroot; left; vm_compute; apply not_elem_of_nil|].
  split; [by apply (Hlead "a/b/")|].
  split.
  - intros [Hno|Hone']%Hab; [|by vm_compute in Hone'].
    apply Hno. vm_compute. left.
  - intros [Hno|Hone']%Hdouble; [|by vm_compute in Hone'].
    apply Hno. vm_compute. right. left.
Defined.

(** * Requests *)

(** A request answers in one of three ways; in each the schedule of faults
    loses its head and the trace gains the request. *)
Lemma call_cases {A} (r : request)
    (sem : gmap string (gmap string string) →
           error_code + (gmap string (gmap string string) * A)) (w : world) :
  (head (faults w) = Some true ∧
   call r sem w = (World (buckets w) (tail (faults w))
                     (trace w ++ [(r, Some ServiceUnavailable)]) (stdout w),
                   Raise ServiceUnavailable)) ∨
  (head (faults w) ≠ Some true ∧ ∃ e, sem (buckets w) = inl e ∧
   call r sem w = (World (buckets w) (tail (faults w))
                     (trace w ++ [(r, Some e)]) (stdout w), Raise e)) ∨
  (head (faults w) ≠ Some true ∧ ∃ bs a, sem (buckets w) = inr (bs, a) ∧
   call r sem w = (World bs (tail (faults w)) (trace w ++ [(r, None)]) (stdout w),
                   Return a)).
Proof.
  unfold call. destruct (faults w) as [|[] fs] eqn:Hf; simpl.
  - right. destruct (sem (buckets w)) as [e|[bs a]]; [left|right]; split; eauto.
  - by left.
  - right. destruct (sem (buckets w)) as [e|[bs a]]; [left|right]; split; eauto.
Qed.

(** What every request does to the state, whatever its answer. *)
Lemma call_frame {A} (r : request) sem (w w1 : world) (o : outcome A) :
  call r sem w = (w1, o) →
  faults w1 = tail (faults w) ∧ stdout w1 = stdout w ∧
  ∃ err, trace w1 = trace w ++ [(r, err)] ∧
    match o with
    | Return a => err = None ∧ sem (buckets w) = inr (buckets w1, a)
    | Raise e => err = Some e ∧ buckets w1 = buckets w
    end.
Proof.
  destruct (call_cases r sem w)
    as [(_ & ->)|[(_ & e & Hs & ->)|(_ & bs & a & Hs & ->)]];
    intros [= <- <-]; simpl; eauto 8.
Qed.

Lemma delta_app (w w' : world) d : trace w' = trace w ++ d → delta w w' = d.
Proof. intros H. unfold delta. rewrite H. by rewrite drop_app_length. Qed.

(** ** The single-request operations of the gateway *)

Lemma create_bucket_run region b w :
  s3_service.create_bucket region b w =
  let '(w1, ok) := handled "Create bucket failed:" (S3.create_bucket b region w) in
  (w1, Return ok).
Proof.
  unfold s3_service.create_bucket, try_except, bind, ret, print, handled.
  by destruct (S3.create_bucket b region w) as [w1 [[]|e]].
Qed.

Lemma upload_file_run b f k w :
  s3_service.upload_file b f k w =
  let '(w1, ok) := handled "Upload failed:" (upload_fileobj f b k w) in (w1, Return ok).
Proof.
  unfold s3_service.upload_file, try_except, bind, ret, print, handled.
  by destruct (upload_fileobj f b k w) as [w1 [[]|e]].
Qed.

Lemma delete_file_run b k w :
  s3_service.delete_file b k w =
  let '(w1, ok) := handled "Delete file failed:" (delete_object b k w) in (w1, Return ok).
Proof.
  unfold s3_service.delete_file, try_except, bind, ret, print, handled.
  by destruct (delete_object b k w) as [w1 [[]|e]].
Qed.

Lemma endswith_negb f :
  (if negb (PyStr.endswith f slash) then f +:+ "/" else f) = folder_key f.
Proof. unfold folder_key. by destruct (PyStr.endswith f slash). Qed.

Lemma create_folder_run b f w :
  s3_service.create_folder b f w =
  let '(w1, ok) := handled "Create folder failed:" (put_object b (folder_key f) w) in
  (w1, Return ok).
Proof.
  unfold s3_service.create_folder, try_except, bind, ret, print, handled.
  rewrite endswith_negb.
  by destruct (put_object b (folder_key f) w) as [w1 [[]|e]].
Qed.

Lemma copy_file_run sb sk db dk w :
  s3_service.copy_file sb sk db dk w =
  let '(w1, ok) := handled "Copy failed:" (copy_object sb sk db dk w) in (w1, Return ok).
Proof.
  unfold s3_service.copy_file, try_except, bind, ret, print, handled.
  by destruct (copy_object sb sk db dk w) as [w1 [[]|e]].
Qed.

(** [move_file] runs the copy, then the delete on the state the copy left,
    and returns [True] whatever the two answered. *)
Lemma move_file_run sb sk db dk w :
  s3_service.move_file sb sk db dk w =
  let '(w1, _) := handled "Copy failed:" (copy_object sb sk db dk w) in
  let '(w2, _) := handled "Delete file failed:" (delete_object sb sk w1) in
  (w2, Return true).
Proof.
  unfold s3_service.move_file, try_except at 1. unfold bind at 1 2.
  rewrite copy_file_run.
  destruct (handled "Copy failed:" (copy_object sb sk db dk w)) as [w1 ok1].
  rewrite delete_file_run.
  by destruct (handled "Delete file failed:" (delete_object sb sk w1)) as [w2 ok2].
Qed.

(** * The scenarios of the specification, run on the model *)

(** Bucket ["demo"] holds ["docs/"], ["docs/readme.txt"] and
    ["images/logo.png"]: listing ["docs/"] gives no folder and the one
    file, the marker of the folder left out; listing the root gives the
    two folders. *)
Example scenario_list_docs :
  (s3_service.list_objects "demo" "docs/" demo).2 = Return ([], ["docs/readme.txt"]) ∧
  (s3_service.list_objects "demo" "" demo).2 = Return (["docs/"; "images/"], []).
Proof. split; vm_compute; reflexivity. Qed.

(** A folder created under ["a/"] is among the folders of ["a/"]. *)
Example scenario_create_then_list :
  (s3_service.list_objects "demo" "a/"
     (s3_service.create_folder "demo" "a/b/" demo).1).2 = Return (["a/b/"], []).
Proof. vm_compute. reflexivity. Qed.

(** Deleting a file twice succeeds twice. *)
Example scenario_delete_twice :
  (s3_service.delete_file "b" "a/x.txt" demo).2 = Return true ∧
  (s3_service.delete_file "b" "a/x.txt"
     (s3_service.delete_file "b" "a/x.txt" demo).1).2 = Return true.
Proof. split; vm_compute; reflexivity. Qed.

(** Moving a file into the folder it is in: the destination key is the
    source key, the provider refuses the copy, and the delete that follows
    removes the file. *)
Example scenario_move_in_place :
  main.destination_key "a/x.txt" "a/" = "a/x.txt" ∧
  trace (main.move_file "b" "a/x.txt" "a/" demo).1
    = [(CopyObject "b" "a/x.txt" "b" "a/x.txt", Some InvalidRequest);
       (DeleteObject "b" "a/x.txt", None)] ∧
  objects (main.move_file "b" "a/x.txt" "a/" demo).1 "b" !! "a/x.txt" = None.
Proof. repeat split; vm_compute; reflexivity. Qed.

(** * Listing a folder *)

(** C2: whatever the provider answers, the files returned by [list_objects]
    for a prefix never contain a key equal to that prefix; the call always
    returns a pair of lists. *)
Theorem C2_files_exclude_prefix (bucket_name prefix : string) (w : S3.world) :
  ∃ w' folders files,
    s3_service.list_objects bucket_name prefix w = (w', S3.Return (folders, files)) ∧
    prefix ∉ files.
Proof.
  unfold s3_service.list_objects, S3.try_except, S3.bind, S3.ret.
  destruct (S3.list_objects_v2 bucket_name prefix (Some "/") None w) as [w1 [page|e]];
    simpl.
  - eexists _, _, _. split; [reflexivity|].
    destruct (S3.Contents page) as [objs|]; [|apply not_elem_of_nil].
    intros (obj & Hkey & [Hne _]%list_elem_of_filter)%list_elem_of_fmap.
    by apply Hne.
  - eexists _, _, _. split; [reflexivity|]. apply not_elem_of_nil.
Qed.

(** * Moving a file *)

(** C3: [move_file] makes the copy request on the source and destination
    keys and then the delete request on the source key, in this order and
    nothing else; when neither request raised, the body that was at the
    source key is at the destination key and the source key is absent (the
    provider refuses to copy an object onto itself, so a copy that did not
    raise had a destination other than its source).  The route handler
    makes the same run with the destination key built from the destination
    path and the file name of the source key. *)
Theorem C3_move_file (sb sk db dk : string) (w w' : world) (r : outcome bool) :
  s3_service.move_file sb sk db dk w = (w', r) →
  r = Return true ∧
  (∃ e1 e2,
     trace w' = trace w ++ [(CopyObject sb sk db dk, e1); (DeleteObject sb sk, e2)] ∧
     (e1 = None → e2 = None →
      ∃ body, objects w sb !! sk = Some body ∧
              objects w' db !! dk = Some body ∧
              objects w' sb !! sk = None)) ∧
  (∀ destination_path,
     db = sb → dk = main.destination_key sk destination_path →
     main.move_file sb sk destination_path w = (w', Return tt)).
Proof.
  intros Hrun. split; [|split].
  - rewrite move_file_run in Hrun.
    destruct (handled _ (copy_object sb sk db dk w)) as [w1 ok1].
    destruct (handled _ (delete_object sb sk w1)) as [w2 ok2]. congruence.
  - rewrite move_file_run in Hrun. unfold handled in Hrun.
    destruct (copy_object sb sk db dk w) as [w1 o1] eqn:Hcopy.
    apply call_frame in Hcopy as (_ & _ & e1 & Ht1 & Ho1).
    destruct o1 as [[]|e].
    + destruct (delete_object sb sk w1) as [w2 o2] eqn:Hdel.
      apply call_frame in Hdel as (_ & _ & e2 & Ht2 & Ho2).
      destruct o2 as [[]|e']; injection Hrun as <- <-; simpl;
        exists e1, e2; rewrite Ht2, Ht1, <- app_assoc; (split; [done|]).
      * intros _ _. destruct Ho1 as [_ Hs1], Ho2 as [_ Hs2].
        unfold objects.
        destruct (buckets w !! sb) as [src|] eqn:Hsrc; [|done].
        destruct (buckets w !! db) as [dst|] eqn:Hdst; [|done].
        destruct (src !! sk) as [body|] eqn:Hbody; [|done].
        case_bool_decide as Hself; [done|]. injection Hs1 as Hb1.
        exists body. split; [done|]. rewrite <- Hb1 in Hs2.
        destruct (decide (db = sb)) as [->|Hne].
        -- rewrite lookup_insert_eq in Hs2. injection Hs2 as <-.
           rewrite !lookup_insert_eq. simpl. simplify_eq.
           rewrite lookup_delete_eq, lookup_delete_ne, lookup_insert_eq; [done|].
           intros ->. by apply Hself.
        -- rewrite lookup_insert_ne, Hsrc in Hs2 by done. injection Hs2 as <-.
           rewrite lookup_insert_eq, lookup_insert_ne, lookup_insert_eq by done.
           simpl. by rewrite lookup_insert_eq, lookup_delete_eq.
      * destruct Ho2 as [-> _]. by intros _ [=].
    + destruct Ho1 as [-> _].
      destruct (delete_object sb sk _) as [w2 o2] eqn:Hdel.
      apply call_frame in Hdel as (_ & _ & e2 & Ht2 & _). simpl in Ht2.
      destruct o2 as [[]|e']; injection Hrun as <- <-; simpl;
        exists (Some e), e2; rewrite Ht2, Ht1, <- app_assoc; (split; [done|]);
        by intros [=].
  - intros p -> ->. unfold main.move_file, bind at 1. rewrite Hrun.
    rewrite move_file_run in Hrun.
    destruct (handled _ (copy_object _ _ _ _ w)) as [w1 ok1].
    destruct (handled _ (delete_object sb sk w1)) as [w2 ok2].
    by injection Hrun as <- <-.
Qed.

Lemma C3_move_file_witness :
  ∃ w', main.move_file "b" "a/x.txt" "b/" demo = (w', S3.Return tt) ∧
        S3.objects w' "b" !! "b/x.txt" = Some "x" ∧
        S3.objects w' "b" !! "a/x.txt" = None.
Proof.
  destruct (C3_move_file "b" "a/x.txt" "b" "b/x.txt" demo _ _ (surjective_pairing _))
    as (_ & (e1 & e2 & Htrace & Hmoved) & Hroute).
  eexists. split; [by apply Hroute|].
  vm_compute in Htrace. injection Htrace as <- <-.
  destruct Hmoved as (body & Hsrc & Hdst & Hgone); [done..|].
  vm_compute in Hsrc. injection Hsrc as <-. by split.
Defined.

(** A successful delete request removes its key and nothing else. *)
Lemma delete_object_returns b k w w1 :
  delete_object b k w = (w1, Return tt) →
  objects w1 b !! k = None ∧
  ∀ b' k', (b', k') ≠ (b, k) → objects w1 b' !! k' = objects w b' !! k'.
Proof.
  intros (_ & _ & _ & _ & _ & Hsem)%call_frame. unfold objects.
  destruct (buckets w !! b) as [m|] eqn:Hm; [|done]. injection Hsem as <-.
  split; [by rewrite lookup_insert_eq; simpl; rewrite lookup_delete_eq|].
  intros b' k' Hne. destruct (decide (b' = b)) as [->|Hb].
  - rewrite lookup_insert_eq, Hm. simpl. apply lookup_delete_ne. congruence.
  - by rewrite lookup_insert_ne.
Qed.

(** C9: when the copy request raises, [copy_file] prints and returns
    [False], and [move_file] still makes the delete request on the source
    key and returns [True]; nothing is printed by the handler of
    [move_file].  When that delete request succeeds the source key is gone
    and every other key of every bucket is as it was, so an object that was
    only at the source key is nowhere. *)
Theorem C9_move_file_deletes_after_failed_copy
    (sb sk db dk : string) (w w1 : world) (e : error_code) :
  copy_object sb sk db dk w = (w1, Raise e) →
  (∃ w1', s3_service.copy_file sb sk db dk w = (w1', Return false) ∧
          buckets w1' = buckets w) ∧
  ∃ w' e2,
    s3_service.move_file sb sk db dk w = (w', Return true) ∧
    trace w' = trace w ++ [(CopyObject sb sk db dk, Some e); (DeleteObject sb sk, e2)] ∧
    stdout w' = stdout w ++ ("Copy failed:", e) ::
                  match e2 with
                  | Some e' => [("Delete file failed:", e')]
                  | None => []
                  end ∧
    (e2 = None →
     objects w' sb !! sk = None ∧
     ∀ b k, (b, k) ≠ (sb, sk) → objects w' b !! k = objects w b !! k).
Proof.
  intros Hcopy. rewrite copy_file_run, move_file_run, Hcopy. simpl.
  apply call_frame in Hcopy as (_ & Hout1 & e1 & Ht1 & -> & Hb1).
  split; [by eexists|].
  set (w1' := World (buckets w1) (faults w1) (trace w1) (stdout w1 ++ [("Copy failed:", e)])).
  destruct (delete_object sb sk w1') as [w2 o2] eqn:Hdel.
  pose proof Hdel as (_ & Hout2 & e2 & Ht2 & Ho2)%call_frame. simpl in Ht2, Hout2.
  destruct o2 as [[]|e']; simpl; eexists _, e2; (split; [reflexivity|]); simpl;
    rewrite ?app_nil_r, Ht2, Ht1, Hout2, Hout1, <- !app_assoc; simpl.
  - destruct Ho2 as [-> _]. do 2 (split; [done|]). intros _.
    apply delete_object_returns in Hdel as [Hgone Hrest]. split; [done|].
    intros b k Hne. rewrite (Hrest b k Hne). unfold objects, w1'. simpl. by rewrite Hb1.
  - destruct Ho2 as [-> _]. do 2 (split; [done|]). by intros [=].
Qed.

Lemma C9_move_file_deletes_after_failed_copy_witness :
  objects demo_first_fails "b" !! "a/x.txt" = Some "x" ∧
  ∃ w', s3_service.move_file "b" "a/x.txt" "b" "b/x.txt" demo_first_fails
          = (w', Return true) ∧
        objects w' "b" !! "a/x.txt" = None ∧
        objects w' "b" !! "b/x.txt" = None.
Proof.
  split; [reflexivity|].
  destruct (C9_move_file_deletes_after_failed_copy
              "b" "a/x.txt" "b" "b/x.txt" demo_first_fails _ ServiceUnavailable
              (surjective_pairing _))
    as (_ & w' & e2 & Hrun & Htrace & _ & Hlost).
  exists w'. split; [exact Hrun|].
  pose proof (f_equal fst Hrun) as Hw'. simpl in Hw'. rewrite <- Hw' in Htrace.
  vm_compute in Htrace. injection Htrace as <-.
  destruct Hlost as [Hgone Hrest]; [done|]. split; [exact Hgone|].
  by rewrite Hrest.
Defined.

(** * Creating a folder *)

(** Storing the body a key already has changes no bucket. *)
Lemma put_object_same b k w w1 :
  objects w b !! k = Some "" →
  put_object b k w = (w1, Return tt) → buckets w1 = buckets w.
Proof.
  intros Hk (_ & _ & _ & _ & _ & Hsem)%call_frame. unfold objects, store in *.
  destruct (buckets w !! b) as [m|] eqn:Hm; [|done]. injection Hsem as <-.
  simpl in Hk. by rewrite (insert_id m), (insert_id (buckets w)).
Qed.

(** C7: [create_folder] makes one put request, for the key [f + "/"] when
    the folder path [f] does not end in ["/"] and for [f] itself when it
    does.  When the request does not raise, the call returns [True], the
    key holds a zero-byte object and no other key has changed; if the
    marker was already there no bucket has changed, and so creating the
    folder once more leaves the buckets as the first call left them. *)
Theorem C7_create_folder (b f : string) (w w' : world) (r : outcome bool) :
  s3_service.create_folder b f w = (w', r) →
  ∃ key e,
    (PyStr.endswith f slash = false → key = f +:+ "/") ∧
    (PyStr.endswith f slash = true → key = f) ∧
    trace w' = trace w ++ [(PutObject b key, e)] ∧
    (e = None →
     r = Return true ∧
     objects w' b !! key = Some "" ∧
     (∀ b' k, (b', k) ≠ (b, key) → objects w' b' !! k = objects w b' !! k) ∧
     (objects w b !! key = Some "" → buckets w' = buckets w) ∧
     (∀ w'' r', s3_service.create_folder b f w' = (w'', r') → buckets w'' = buckets w')).
Proof.
  intros Hrun. exists (folder_key f).
  assert (Hstored : ∀ v v' o, put_object b (folder_key f) v = (v', o) →
            ∃ e, trace v' = trace v ++ [(PutObject b (folder_key f), e)] ∧
              match o with
              | Return _ => e = None ∧ objects v' b !! folder_key f = Some "" ∧
                  ∀ b' k, (b', k) ≠ (b, folder_key f) →
                    objects v' b' !! k = objects v b' !! k
              | Raise _ => e ≠ None ∧ buckets v' = buckets v
              end).
  { intros v v' o (_ & _ & e & Ht & Ho)%call_frame. exists e. split; [done|].
    destruct o as [[]|e']; [|by destruct Ho as [-> ?]].
    destruct Ho as [-> Hsem]. split; [done|]. unfold objects, store in *.
    destruct (buckets v !! b) as [m|] eqn:Hm; [|done]. injection Hsem as <-.
    split; [by rewrite lookup_insert_eq; simpl; rewrite lookup_insert_eq|].
    intros b' k Hne. destruct (decide (b' = b)) as [->|Hb].
    - rewrite lookup_insert_eq, Hm. simpl. apply lookup_insert_ne. congruence.
    - by rewrite lookup_insert_ne. }
  rewrite create_folder_run in Hrun. unfold handled in Hrun.
  destruct (put_object b (folder_key f) w) as [w1 o] eqn:Hput.
  destruct (Hstored _ _ _ Hput) as (e & Ht & Ho). exists e.
  split; [by unfold folder_key; intros ->|].
  split; [by unfold folder_key; intros ->|].
  destruct o as [[]|e']; injection Hrun as <- <-; simpl; (split; [done|]);
    [|by destruct Ho as [? _]].
  destruct Ho as (_ & Hmarker & Hrest). intros _.
  split; [done|]. split; [done|]. split; [done|].
  split; [by intros Hk; apply (put_object_same _ _ _ _ Hk Hput)|].
  intros w'' r'. rewrite create_folder_run. unfold handled.
  destruct (put_object b (folder_key f) w1) as [w2 o2] eqn:Hput2.
  destruct o2 as [[]|e2]; intros [= <- _]; simpl.
  - by apply (put_object_same _ _ _ _ Hmarker Hput2).
  - by apply call_frame in Hput2 as (_ & _ & _ & _ & _ & ?).
Qed.

Lemma C7_create_folder_witness :
  ∃ w' w'',
    s3_service.create_folder "demo" "photos" demo = (w', Return true) ∧
    objects w' "demo" !! "photos/" = Some "" ∧
    s3_service.create_folder "demo" "photos" w' = (w'', Return true) ∧
    buckets w'' = buckets w'.
Proof.
  destruct (C7_create_folder "demo" "photos" demo _ _ (surjective_pairing _))
    as (key & e & Hkey & _ & Htrace & Hstored).
  rewrite (Hkey eq_refl) in *. vm_compute in Htrace. injection Htrace as <-.
  destruct Hstored as (Hret & Hmarker & _ & _ & Hagain); [done|].
  eexists _, _. split; [by rewrite (surjective_pairing (_ _ demo)), Hret|].
  split; [exact Hmarker|]. split; [|exact (Hagain _ _ (surjective_pairing _))].
  rewrite (surjective_pairing (s3_service.create_folder _ _ _)) at 1.
  f_equal; vm_compute; reflexivity.
Defined.

(** * Paginated listings *)

Lemma StronglySorted_filter {A} (R : relation A) (P : A → Prop)
    `{∀ x, Decision (P x)} (l : list A) :
  StronglySorted R l → StronglySorted R (filter P l).
Proof.
  induction 1 as [|x l Hl IH Hx]; [constructor|].
  rewrite filter_cons. destruct (decide (P x)); [|done].
  constructor; [done|]. rewrite Forall_forall in Hx |- *.
  intros y [_ Hy]%list_elem_of_filter. by apply Hx.
Qed.

Lemma sorted_keys_sorted m : StronglySorted String.le (sorted_keys m).
Proof. apply StronglySorted_merge_sort; apply _. Qed.

Lemma sorted_keys_NoDup m : NoDup (sorted_keys m).
Proof.
  unfold sorted_keys. rewrite merge_sort_Permutation. apply NoDup_fst_map_to_list.
Qed.

Lemma elem_of_sorted_keys m k : k ∈ sorted_keys m ↔ is_Some (m !! k).
Proof.
  unfold sorted_keys. rewrite merge_sort_Permutation, list_elem_of_fmap. split.
  - intros ([k' v] & -> & Hkv%elem_of_map_to_list). by exists v.
  - intros [v Hv]. exists (k, v). split; [done|]. by apply elem_of_map_to_list.
Qed.

Lemma length_sorted_keys m : length (sorted_keys m) = size m.
Proof.
  unfold sorted_keys.
  by rewrite merge_sort_Permutation, length_fmap, length_map_to_list.
Qed.

Lemma listed_sorted m p tok : StronglySorted String.le (listed m p tok).
Proof. unfold listed. do 2 apply StronglySorted_filter. apply sorted_keys_sorted. Qed.

Lemma listed_NoDup m p tok : NoDup (listed m p tok).
Proof. unfold listed. do 2 apply NoDup_filter. apply sorted_keys_NoDup. Qed.

Lemma elem_of_listed m p tok k :
  k ∈ listed m p tok ↔ after tok k ∧ PyStr.startswith k p ∧ is_Some (m !! k).
Proof. unfold listed. by rewrite !list_elem_of_filter, elem_of_sorted_keys. Qed.

Lemma length_listed m p tok : length (listed m p tok) ≤ size m.
Proof.
  unfold listed. rewrite <- length_sorted_keys.
  etrans; [apply length_filter|apply length_filter].
Qed.

(** Without a token, everything under the prefix is left to list. *)
Lemma elem_of_listed_all m p k :
  k ∈ listed m p None ↔ PyStr.startswith k p ∧ is_Some (m !! k).
Proof. rewrite elem_of_listed. simpl. tauto. Qed.

Lemma lookup_delete_keys ks (m : gmap string string) k :
  delete_keys ks m !! k = if decide (k ∈ ks) then None else m !! k.
Proof.
  unfold delete_keys. case_decide.
  - by apply lookup_foldr_delete.
  - by apply lookup_foldr_delete_not_elem_of.
Qed.

Lemma delete_keys_app ks1 ks2 (m : gmap string string) :
  delete_keys ks2 (delete_keys ks1 m) = delete_keys (ks1 ++ ks2) m.
Proof.
  apply map_eq. intros k. rewrite !lookup_delete_keys.
  destruct (decide (k ∈ ks1 ++ ks2)) as [[H|H]%elem_of_app|H12].
  - destruct (decide (k ∈ ks2)); [done|]. by rewrite decide_True.
  - by rewrite (decide_True _ _ H).
  - apply not_elem_of_app in H12 as [H1 H2]. by rewrite !decide_False.
Qed.

(** What is left to list once a full page has been deleted and the listing
    resumes after the last key of the page: the rest of the listing. *)
Lemma listed_next m p tok n :
  0 < n → n < length (listed m p tok) →
  listed (delete_keys (take n (listed m p tok)) m) p (last (take n (listed m p tok)))
  = drop n (listed m p tok).
Proof.
  intros Hn Hlen. set (c := listed m p tok) in *.
  pose proof (listed_sorted m p tok) as Hsorted.
  pose proof (listed_NoDup m p tok) as Hnodup.
  fold c in Hsorted, Hnodup. rewrite <- (take_drop n c) in Hsorted, Hnodup.
  apply StronglySorted_app in Hsorted as (Hle & _ & Hdrop).
  apply NoDup_app in Hnodup as (_ & Hdisj & Hnodrop).
  destruct (last (take n c)) as [x|] eqn:Hlast.
  2:{ apply last_None in Hlast. apply (f_equal length) in Hlast.
      rewrite length_take in Hlast. simpl in Hlast. lia. }
  assert (Hx : x ∈ take n c) by (by apply last_Some_elem_of).
  assert (Hxc : x ∈ c) by (by eapply subseteq_take).
  apply (StronglySorted_unique String.le); [apply listed_sorted|done|].
  apply NoDup_Permutation; [apply listed_NoDup|done|].
  intros k. rewrite elem_of_listed, lookup_delete_keys. split.
  - intros (Hafter & Hp & Hin). case_decide as Htake; [by destruct Hin|].
    assert (Hk : k ∈ c).
    { apply elem_of_listed. split; [|done].
      apply elem_of_listed in Hxc as (Hxafter & _).
      destruct tok as [t|]; [|done]. simpl in *. intros Hkt.
      destruct (total String.le k x) as [?|Hxk]; [done|].
      apply Hxafter. by etrans. }
    rewrite <- (take_drop n c) in Hk. apply elem_of_app in Hk as [?|?]; done.
  - intros Hk. assert (Hkc : k ∈ c) by (by eapply subseteq_drop).
    apply elem_of_listed in Hkc as (_ & Hp & Hin).
    split; [|split; [done|]].
    + simpl. intros Hkx. assert (x = k) as -> by (apply (anti_symm String.le); auto).
      by apply (Hdisj k).
    + case_decide as Htake; [|done]. by destruct (Hdisj k).
Qed.

Lemma filter_after_Object tok (ks : list string) :
  filter (λ e, after tok (marker e)) (Object <$> ks) = Object <$> filter (after tok) ks.
Proof.
  induction ks as [|k ks IH]; [done|]. rewrite fmap_cons, !filter_cons. simpl.
  destruct (decide (after tok k)); by rewrite IH.
Qed.

Lemma omap_Object_prefix (ks : list string) : omap common_prefix_of (Object <$> ks) = [].
Proof. by induction ks. Qed.

Lemma omap_Object_summary m (ks : list string) :
  omap (object_of m) (Object <$> ks) = summary m <$> ks.
Proof. induction ks as [|k ks IH]; [done|]. simpl. by f_equal. Qed.

Lemma Key_summary m (ks : list string) : Key <$> (summary m <$> ks) = ks.
Proof. induction ks as [|k ks IH]; [done|]. simpl. by f_equal. Qed.

(** The answer to a listing request without delimiter. *)
Lemma list_objects_v2_sem_plain b p tok bs m :
  bs !! b = Some m →
  list_objects_v2_sem b p None tok bs =
  inr (bs, {| CommonPrefixes := None;
              Contents := present (summary m <$> take MaxKeys (listed m p tok));
              IsTruncated := bool_decide (MaxKeys < length (listed m p tok));
              NextContinuationToken :=
                if bool_decide (MaxKeys < length (listed m p tok))
                then last (take MaxKeys (listed m p tok)) else None |}).
Proof.
  intros Hm. unfold list_objects_v2_sem, entries. rewrite Hm.
  rewrite filter_after_Object. fold (listed m p tok).
  rewrite <- fmap_take, omap_Object_prefix, omap_Object_summary, length_fmap.
  rewrite fmap_last, <- option_fmap_compose.
  by rewrite (option_fmap_ext (marker ∘ Object) id), option_fmap_id.
Qed.

(** * Deleting a folder *)

Section DeleteFolder.

Lemma MaxKeys_pos : 0 < MaxKeys.
Proof. unfold MaxKeys. lia. Qed.

Lemma MaxKeys_bulk : MaxKeys ≤ bulk_delete_limit.
Proof. reflexivity. Qed.

Lemma MaxKeys_eq : MaxKeys = 1000.
Proof. reflexivity. Qed.

Local Opaque MaxKeys bulk_delete_limit.

Lemma failed_with_cons x d e : x.2 = None → failed_with d e → failed_with (x :: d) e.
Proof.
  intros Hx (pre & r & -> & Hpre). exists (x :: pre), r. split; [done|].
  unfold errors in *. destruct x as [q o]. simpl in *. subst o. simpl. done.
Qed.

Lemma failed_with_last r e : failed_with [(r, Some e)] e.
Proof. by exists [], r. Qed.

(** A page of a listing is accepted by the bulk delete. *)
Lemma page_accepted (c : list string) k ks :
  take MaxKeys c = k :: ks →
  bool_decide (take MaxKeys c = [] ∨ bulk_delete_limit < length (take MaxKeys c)) = false.
Proof.
  intros Hpage. apply bool_decide_eq_false. intros [Hnil|Hlong]; [congruence|].
  rewrite length_take in Hlong. pose proof MaxKeys_bulk. lia.
Qed.

(** The body of the loop deletes the page it is given, when there is one. *)
Lemma delete_page_contents b m ks cp more next :
  delete_page b {| CommonPrefixes := cp;
                   Contents := present (summary m <$> ks);
                   IsTruncated := more;
                   NextContinuationToken := next |}
  = match ks with
    | [] => ret tt
    | _ :: _ => delete_objects b ks
    end.
Proof.
  destruct ks as [|k ks]; [done|]. unfold delete_page. cbn [Contents].
  change (present (summary m <$> k :: ks)) with (Some (summary m <$> k :: ks)).
  cbn beta iota zeta. by rewrite Key_summary.
Qed.

Variables b p : string.

(** The loop of [delete_folder], from any state in which the bucket exists
    and for any schedule of faults: it ends within the page bound; the
    requests it made extend the trace; the bucket has lost the keys of the
    bulk deletes that were carried out and nothing else; if it returned,
    the requests are those of [paginated_run]; if it raised, the request
    that raised is the last one. *)
Lemma paginate_for_run fuel : ∀ w tok m,
  buckets w !! b = Some m →
  length (listed m p tok) < fuel →
  ∃ w' r d,
    paginate_for fuel b p tok (delete_page b) w = Some (w', r) ∧
    trace w' = trace w ++ d ∧
    stdout w' = stdout w ∧
    buckets w' = <[b := delete_keys (concat (deleted_batches d)) m]> (buckets w) ∧
    match r with
    | Return _ => d = paginated_run fuel b p tok (listed m p tok)
    | Raise e => failed_with d e
    end ∧
    (faults w = [] → r = Return tt ∧ faults w' = []).
Proof.
  induction fuel as [|fuel IH]; intros w tok m Hm Hfuel; [lia|].
  simpl. unfold list_objects_v2.
  destruct (call_cases (ListObjectsV2 b p None tok) (list_objects_v2_sem b p None tok) w)
    as [(Hf & ->)|[(Hf & e & Hs & ->)|(Hf & bs & page & Hs & ->)]].
  { eexists _, _, [(ListObjectsV2 b p None tok, Some ServiceUnavailable)].
    split; [done|]. simpl.
    rewrite (insert_id _ _ _ Hm). do 3 (split; [done|]).
    split; [apply failed_with_last|]. intros Hnil. by rewrite Hnil in Hf. }
  { by rewrite (list_objects_v2_sem_plain _ _ _ _ _ Hm) in Hs. }
  rewrite (list_objects_v2_sem_plain _ _ _ _ _ Hm) in Hs. injection Hs as <- <-.
  set (c := listed m p tok) in *. rewrite delete_page_contents.
  cbn [IsTruncated NextContinuationToken].
  destruct (take MaxKeys c) as [|k ks] eqn:Hpage.
  { unfold ret. apply take_nil_inv in Hpage as [H0|Hc]; [pose proof MaxKeys_pos; lia|].
    rewrite Hc. rewrite bool_decide_eq_false_2 by (simpl; lia).
    eexists _, _, [(ListObjectsV2 b p None tok, None)]. split; [done|]. simpl.
    rewrite (insert_id _ _ _ Hm). do 4 (split; [done|]). by intros ->. }
  rewrite <- Hpage. unfold delete_objects.
  set (w1 := World (buckets w) (tail (faults w)) _ (stdout w)).
  destruct (call_cases (DeleteObjects b (take MaxKeys c))
             (λ bs, match bs !! b with
                    | None => inl NoSuchBucket
                    | Some m =>
                        if bool_decide (take MaxKeys c = [] ∨
                                        bulk_delete_limit < length (take MaxKeys c))
                        then inl MalformedXML
                        else inr (<[b := delete_keys (take MaxKeys c) m]> bs, tt)
                    end) w1)
    as [(Hf1 & ->)|[(Hf1 & e & Hs & ->)|(Hf1 & bs & [] & Hs & ->)]]; simpl in *.
  { eexists _, _, [(ListObjectsV2 b p None tok, None);
                   (DeleteObjects b (take MaxKeys c), Some ServiceUnavailable)].
    split; [done|]. simpl. rewrite <- app_assoc.
    rewrite (insert_id _ _ _ Hm). do 3 (split; [done|]).
    split; [apply failed_with_cons; [done|apply failed_with_last]|].
    intros Hnil. by rewrite Hnil in Hf1. }
  { by rewrite Hm, (page_accepted c k ks Hpage) in Hs. }
  rewrite Hm, (page_accepted c k ks Hpage) in Hs. injection Hs as <-.
  set (w2 := World _ _ _ _).
  case_bool_decide as Hmore.
  - destruct (last (take MaxKeys c)) as [t|] eqn:Hlast.
    2:{ apply last_None in Hlast. congruence. }
    assert (Hnext : listed (delete_keys (take MaxKeys c) m) p (Some t) = drop MaxKeys c).
    { rewrite <- Hlast. by apply listed_next; [apply MaxKeys_pos|]. }
    destruct (IH w2 (Some t) (delete_keys (take MaxKeys c) m)) as (w' & r & d & Hrun & Htr & Hout & Hbs & Hr & Hfaults).
    { apply lookup_insert_eq. }
    { rewrite Hnext, length_drop. pose proof MaxKeys_pos. lia. }
    rewrite Hrun.
    exists w', r, ((ListObjectsV2 b p None tok, None) ::
                   (DeleteObjects b (take MaxKeys c), None) :: d).
    split; [done|].
    split; [by rewrite Htr; simpl; rewrite <- !app_assoc|].
    split; [done|]. split.
    { rewrite Hbs. simpl. by rewrite insert_insert_eq, delete_keys_app. }
    split.
    { destruct r as [[]|e].
      - rewrite Hr, Hnext. destruct c as [|k' c']; [by rewrite take_nil in Hpage|].
        simpl. by rewrite ?bool_decide_eq_true_2, ?Hlast.
      - by do 2 (apply failed_with_cons; [done|]). }
    intros Hnil. apply Hfaults. simpl. by rewrite Hnil.
  - eexists _, _, [(ListObjectsV2 b p None tok, None);
                   (DeleteObjects b (take MaxKeys c), None)].
    split; [done|]. simpl. rewrite <- app_assoc, app_nil_r.
    do 3 (split; [done|]). split; [|by intros ->].
    destruct c as [|k' c']; [by rewrite take_nil in Hpage|].
    simpl. by rewrite ?bool_decide_eq_false_2.
Qed.

(** ** The requests of a run in which nothing raises *)

Lemma paginated_run_errors fuel : ∀ tok c, errors (paginated_run fuel b p tok c) = [].
Proof.
  induction fuel as [|fuel IH]; intros tok c; [done|].
  destruct c as [|k c]; [done|]. simpl. case_bool_decide; [apply IH|done].
Qed.

Lemma paginated_run_deleted fuel : ∀ tok c,
  deleted_batches (paginated_run fuel b p tok c)
  = delete_requests (paginated_run fuel b p tok c).
Proof.
  induction fuel as [|fuel IH]; intros tok c; [done|].
  destruct c as [|k c]; [done|]. simpl. case_bool_decide; [by rewrite IH|done].
Qed.

(** The bulk deletes take the listing apart, in order. *)
Lemma paginated_run_concat fuel : ∀ tok c,
  length c < fuel → concat (delete_requests (paginated_run fuel b p tok c)) = c.
Proof.
  induction fuel as [|fuel IH]; intros tok c Hfuel; [lia|].
  destruct c as [|k c]; [done|]. set (l := k :: c) in *.
  change (paginated_run (S fuel) b p tok l)
    with ((ListObjectsV2 b p None tok, None) ::
          (DeleteObjects b (take MaxKeys l), None) ::
          if bool_decide (MaxKeys < length l)
          then paginated_run fuel b p (last (take MaxKeys l)) (drop MaxKeys l)
          else []).
  pose proof MaxKeys_pos. case_bool_decide as Hmore; simpl.
  - rewrite IH; [apply take_drop|]. rewrite length_drop. lia.
  - rewrite app_nil_r. apply take_ge. lia.
Qed.

(** Every bulk delete has at least one key and at most a page of keys. *)
Lemma paginated_run_sizes fuel : ∀ tok c,
  Forall (λ ks, 0 < length ks ≤ MaxKeys) (delete_requests (paginated_run fuel b p tok c)).
Proof.
  induction fuel as [|fuel IH]; intros tok c; [constructor|].
  destruct c as [|k c]; [constructor|]. set (l := k :: c) in *.
  change (paginated_run (S fuel) b p tok l)
    with ((ListObjectsV2 b p None tok, None) ::
          (DeleteObjects b (take MaxKeys l), None) ::
          if bool_decide (MaxKeys < length l)
          then paginated_run fuel b p (last (take MaxKeys l)) (drop MaxKeys l)
          else []).
  pose proof MaxKeys_pos.
  assert (0 < length (take MaxKeys l) ≤ MaxKeys)
    by (rewrite length_take; subst l; simpl; lia).
  case_bool_decide; simpl; (constructor; [done|]); [apply IH|constructor].
Qed.

(** The number of bulk deletes is the number of pages of the listing. *)
Lemma paginated_run_count fuel : ∀ tok c,
  length c < fuel →
  length c ≤ length (delete_requests (paginated_run fuel b p tok c)) * MaxKeys
           < length c + MaxKeys.
Proof.
  induction fuel as [|fuel IH]; intros tok c Hfuel; [lia|].
  pose proof MaxKeys_pos.
  destruct c as [|k c]; [simpl; lia|]. set (l := k :: c) in *.
  change (paginated_run (S fuel) b p tok l)
    with ((ListObjectsV2 b p None tok, None) ::
          (DeleteObjects b (take MaxKeys l), None) ::
          if bool_decide (MaxKeys < length l)
          then paginated_run fuel b p (last (take MaxKeys l)) (drop MaxKeys l)
          else []).
  assert (Hl : length l = S (length c)) by done.
  case_bool_decide as Hmore; simpl.
  - destruct (IH (last (take MaxKeys l)) (drop MaxKeys l)) as [Hlow Hhigh];
      [rewrite length_drop; lia|].
    rewrite length_drop in Hlow, Hhigh. lia.
  - lia.
Qed.

(** The first listing has no token; every later one has the last key of
    the bulk delete before it. *)
Lemma paginated_run_tokens fuel : ∀ tok c,
  length c < fuel →
  list_tokens (paginated_run fuel b p tok c)
  = tok :: (last <$> removelast (delete_requests (paginated_run fuel b p tok c))).
Proof.
  induction fuel as [|fuel IH]; intros tok c Hfuel; [lia|].
  pose proof MaxKeys_pos.
  destruct c as [|k c]; [done|]. set (l := k :: c) in *.
  change (paginated_run (S fuel) b p tok l)
    with ((ListObjectsV2 b p None tok, None) ::
          (DeleteObjects b (take MaxKeys l), None) ::
          if bool_decide (MaxKeys < length l)
          then paginated_run fuel b p (last (take MaxKeys l)) (drop MaxKeys l)
          else []).
  case_bool_decide as Hmore; [|done].
  assert (Hrest : length (drop MaxKeys l) < fuel) by (rewrite length_drop; lia).
  change (list_tokens (?x :: ?y :: ?r)) with (tok :: list_tokens r).
  change (delete_requests (?x :: ?y :: ?r)) with (take MaxKeys l :: delete_requests r).
  rewrite (IH _ _ Hrest).
  pose proof (paginated_run_count fuel (last (take MaxKeys l)) (drop MaxKeys l) Hrest)
    as Hcount.
  rewrite length_drop in Hcount.
  destruct (delete_requests (paginated_run fuel b p _ (drop MaxKeys l))) as [|ks rest];
    [change (length [] * MaxKeys) with 0 in Hcount; lia|done].
Qed.

End DeleteFolder.

Lemma delete_folder_loop b p w :
  s3_service.delete_folder b p w
  = paginate_for (page_bound w b) b p None (delete_page b) w.
Proof. reflexivity. Qed.

(** A run of [delete_folder] from any state: it ends; its requests extend
    the trace; the bucket has lost the keys of the bulk deletes that were
    carried out and nothing else has changed; if it returned, the bucket
    exists and the requests are those of [paginated_run] on the keys under
    the prefix; if it raised, the request that raised is the last one. *)
Lemma delete_folder_run b p w :
  ∃ w' r d,
    s3_service.delete_folder b p w = Some (w', r) ∧
    trace w' = trace w ++ d ∧
    stdout w' = stdout w ∧
    objects w' b = delete_keys (concat (deleted_batches d)) (objects w b) ∧
    (∀ b', b' ≠ b → buckets w' !! b' = buckets w !! b') ∧
    (is_Some (buckets w' !! b) ↔ is_Some (buckets w !! b)) ∧
    match r with
    | Return _ =>
        is_Some (buckets w !! b) ∧
        d = paginated_run (page_bound w b) b p None (listed (objects w b) p None)
    | Raise e => failed_with d e
    end ∧
    (is_Some (buckets w !! b) → faults w = [] → r = Return tt ∧ faults w' = []).
Proof.
  rewrite delete_folder_loop. unfold page_bound, objects.
  destruct (buckets w !! b) as [m|] eqn:Hm; simpl.
  - destruct (paginate_for_run b p (S (size m)) w None m Hm)
      as (w' & r & d & Hrun & Htr & Hout & Hbs & Hr & Hfaults).
    { pose proof (length_listed m p None). lia. }
    exists w', r, d. split; [done|]. do 2 (split; [done|]).
    split; [by rewrite Hbs, lookup_insert_eq|].
    split; [by intros b' Hb'; rewrite Hbs, lookup_insert_ne|].
    split; [by rewrite Hbs, lookup_insert_eq|].
    split; [destruct r as [[]|e]; eauto|].
    intros _ Hnil. by apply Hfaults.
  - unfold list_objects_v2.
    destruct (call_cases (ListObjectsV2 b p None None)
                (list_objects_v2_sem b p None None) w)
      as [(Hf & ->)|[(Hf & e & Hs & ->)|(Hf & bs & page & Hs & ->)]].
    + eexists _, _, [(ListObjectsV2 b p None None, Some ServiceUnavailable)].
      split; [done|]. simpl. rewrite Hm. do 5 (split; [done|]).
      split; [apply failed_with_last|]. by intros [].
    + eexists _, _, [(ListObjectsV2 b p None None, Some e)].
      split; [done|]. simpl. rewrite Hm. do 5 (split; [done|]).
      split; [apply failed_with_last|]. by intros [].
    + unfold list_objects_v2_sem in Hs. by rewrite Hm in Hs.
Qed.

(** Buckets are equal when they differ at most in one bucket and that
    bucket has the same objects. *)
Lemma buckets_eq b (w w' : world) :
  (∀ b', b' ≠ b → buckets w' !! b' = buckets w !! b') →
  (is_Some (buckets w' !! b) ↔ is_Some (buckets w !! b)) →
  objects w' b = objects w b →
  buckets w' = buckets w.
Proof.
  intros Hrest Hsome Hobj. apply map_eq. intros b'.
  destruct (decide (b' = b)) as [->|Hne]; [|by apply Hrest].
  unfold objects in Hobj.
  destruct (buckets w' !! b) as [m'|] eqn:Hm', (buckets w !! b) as [m|] eqn:Hm;
    simpl in *; [by subst|..|done].
  - by destruct Hsome as [[? [=]] _].
  - by destruct Hsome as [_ [? [=]]].
Qed.

Lemma startswith_listed m p k :
  PyStr.startswith k p = true → m !! k = None ∨ k ∈ listed m p None.
Proof.
  intros Hp. destruct (m !! k) as [v|] eqn:Hk; [right|by left].
  apply elem_of_listed_all. split; [by apply Is_true_true|by exists v].
Qed.

(** When [delete_folder] returns: its requests, and what is left of the
    bucket. *)
Lemma delete_folder_returns b p w w' :
  s3_service.delete_folder b p w = Some (w', Return tt) →
  delta w w' = paginated_run (page_bound w b) b p None (listed (objects w b) p None) ∧
  concat (delete_requests (delta w w')) = listed (objects w b) p None ∧
  objects w' b = delete_keys (listed (objects w b) p None) (objects w b) ∧
  (∀ b', b' ≠ b → buckets w' !! b' = buckets w !! b') ∧
  (is_Some (buckets w' !! b) ↔ is_Some (buckets w !! b)).
Proof.
  intros Hrun.
  destruct (delete_folder_run b p w)
    as (w1 & r & d & Hrun1 & Htr & _ & Hobj & Hrest & Hsome & Hr & _).
  rewrite Hrun in Hrun1. injection Hrun1 as <- <-. destruct Hr as [_ Hd].
  rewrite (delta_app _ _ _ Htr).
  assert (Hfuel : length (listed (objects w b) p None) < page_bound w b).
  { unfold page_bound. pose proof (length_listed (objects w b) p None). lia. }
  assert (Hconcat : concat (delete_requests d) = listed (objects w b) p None).
  { rewrite Hd. by apply paginated_run_concat. }
  rewrite Hd, paginated_run_deleted, <- Hd, Hconcat in Hobj. done.
Qed.

Lemma delete_folder_clears b p w w' k :
  s3_service.delete_folder b p w = Some (w', Return tt) →
  PyStr.startswith k p = true → objects w' b !! k = None.
Proof.
  intros (_ & _ & Hobj & _)%delete_folder_returns Hk.
  rewrite Hobj, lookup_delete_keys. case_decide; [done|].
  by destruct (startswith_listed (objects w b) p k Hk).
Qed.

(** C1: [delete_folder] always ends.  When it returns, every request it
    made was answered without error; the requests are a listing without
    token, one bulk delete per page of at most [MaxKeys] keys, and after
    every full page a listing with the last key of the page as token; the
    bulk deletes name the keys under the prefix, each one once, a page per
    request and never more than the provider's limit; no key under the
    prefix is left (the folder marker is such a key) and nothing else has
    changed.  The number of bulk deletes is the number of pages, three for
    a folder of 2500 objects.  With the bucket there and no fault
    scheduled, [delete_folder] does return. *)
Theorem C1_delete_folder (b p : string) (w : world) :
  (∃ w' r, s3_service.delete_folder b p w = Some (w', r)) ∧
  (is_Some (buckets w !! b) → faults w = [] →
   ∃ w', s3_service.delete_folder b p w = Some (w', Return tt)) ∧
  ∀ w', s3_service.delete_folder b p w = Some (w', Return tt) →
    let under := listed (objects w b) p None in
    let d := delta w w' in
    (∀ k, k ∈ under ↔ PyStr.startswith k p = true ∧ is_Some (objects w b !! k)) ∧
    NoDup under ∧
    errors d = [] ∧
    list_tokens d = None :: (last <$> removelast (delete_requests d)) ∧
    concat (delete_requests d) = under ∧
    Forall (λ ks, 0 < length ks ≤ bulk_delete_limit) (delete_requests d) ∧
    (∀ k, PyStr.startswith k p = true → objects w' b !! k = None) ∧
    (∀ k, PyStr.startswith k p = false → objects w' b !! k = objects w b !! k) ∧
    (∀ b', b' ≠ b → buckets w' !! b' = buckets w !! b') ∧
    length under ≤ length (delete_requests d) * MaxKeys < length under + MaxKeys ∧
    (length under = 2500 → length (delete_requests d) = 3).
Proof.
  destruct (delete_folder_run b p w)
    as (w1 & r & d0 & Hrun & _ & _ & _ & _ & _ & _ & Hfaults).
  split; [by eauto|]. split.
  { intros Hb Hnil. destruct (Hfaults Hb Hnil) as [-> _]. eauto. }
  clear w1 r d0 Hrun Hfaults. intros w' Hrun under d.
  destruct (delete_folder_returns b p w w' Hrun) as (Hd & Hconcat & Hobj & Hrest & _).
  fold under d in Hd, Hconcat, Hobj.
  assert (Hfuel : length under < page_bound w b).
  { unfold page_bound, under. pose proof (length_listed (objects w b) p None). lia. }
  pose proof (paginated_run_count b p _ None under Hfuel) as Hcount. rewrite <- Hd in Hcount.
  split.
  { intros k. unfold under. rewrite elem_of_listed_all. by rewrite Is_true_true. }
  split; [apply listed_NoDup|].
  split; [rewrite Hd; apply paginated_run_errors|].
  split; [rewrite Hd; by apply paginated_run_tokens|].
  split; [done|].
  split.
  { rewrite Hd. eapply Forall_impl; [apply paginated_run_sizes|].
    intros ks. simpl. pose proof MaxKeys_bulk. lia. }
  split; [by intros k Hk; apply (delete_folder_clears b p w w' k Hrun)|].
  split.
  { intros k Hk. rewrite Hobj, lookup_delete_keys. case_decide as Hin; [|done].
    apply elem_of_listed_all in Hin as [Hin%Is_true_true _]. congruence. }
  split; [done|]. split; [done|].
  intros H2500. rewrite H2500, MaxKeys_eq in Hcount. lia.
Qed.

Lemma C1_delete_folder_witness :
  ∃ w', s3_service.delete_folder "big" "f/" (big_folder 2500 []) = Some (w', Return tt) ∧
        length (delete_requests (delta (big_folder 2500 []) w')) = 3 ∧
        objects w' "big" !! "f/2499" = None.
Proof.
  destruct (C1_delete_folder "big" "f/" (big_folder 2500 [])) as (_ & Hreturns & Hthen).
  destruct Hreturns as [w' Hrun]; [by eexists|done|].
  exists w'. split; [exact Hrun|].
  destruct (Hthen w' Hrun) as (_ & _ & _ & _ & _ & _ & Hgone & _ & _ & _ & Hthree).
  split; [|by apply Hgone].
  apply Hthree. vm_compute. reflexivity.
Defined.

(** C8: on a prefix with no object under it, [delete_folder] returns when
    the bucket is there and no fault is scheduled, and whenever it returns
    it has made the listing request and no other, and no bucket has
    changed.  After [delete_folder] has returned, no object is under the
    prefix, and when it returns a second time there is still none: the
    second call has made no bulk delete and has changed no bucket.  With
    the bucket there and no fault scheduled both calls return. *)
Theorem C8_delete_folder_twice (b p : string) (w : world) :
  ((∀ k, PyStr.startswith k p = true → objects w b !! k = None) →
   ∀ w', s3_service.delete_folder b p w = Some (w', Return tt) →
     delta w w' = [(ListObjectsV2 b p None None, None)] ∧ buckets w' = buckets w) ∧
  (∀ w1 w2,
     s3_service.delete_folder b p w = Some (w1, Return tt) →
     s3_service.delete_folder b p w1 = Some (w2, Return tt) →
     (∀ k, PyStr.startswith k p = true →
           objects w1 b !! k = None ∧ objects w2 b !! k = None) ∧
     delete_requests (delta w1 w2) = [] ∧
     buckets w2 = buckets w1) ∧
  (is_Some (buckets w !! b) → faults w = [] →
   ∃ w1 w2, s3_service.delete_folder b p w = Some (w1, Return tt) ∧
            s3_service.delete_folder b p w1 = Some (w2, Return tt)).
Proof.
  assert (Hempty : ∀ v v',
    (∀ k, PyStr.startswith k p = true → objects v b !! k = None) →
    s3_service.delete_folder b p v = Some (v', Return tt) →
    delta v v' = [(ListObjectsV2 b p None None, None)] ∧ buckets v' = buckets v).
  { intros v v' Hnone Hrun.
    destruct (delete_folder_run b p v)
      as (v1 & r & d & Hrun1 & Htr & _ & Hobj & Hrest & Hsome & Hr & _).
    rewrite Hrun in Hrun1. injection Hrun1 as <- <-. destruct Hr as [_ Hd].
    assert (Hunder : listed (objects v b) p None = []).
    { destruct (listed (objects v b) p None) as [|k l] eqn:Hl; [done|].
      assert (Hin : k ∈ listed (objects v b) p None) by (rewrite Hl; left).
      apply elem_of_listed_all in Hin as [Hk%Is_true_true [x Hx]].
      rewrite (Hnone k Hk) in Hx. discriminate. }
    rewrite Hunder in Hd. unfold page_bound in Hd. simpl in Hd. subst d.
    split; [by apply delta_app|]. by apply (buckets_eq b). }
  split; [by intros Hnone w' Hrun; apply Hempty|]. split.
  - intros w1 w2 Hrun1 Hrun2.
    assert (Hgone : ∀ k, PyStr.startswith k p = true → objects w1 b !! k = None)
      by (intros k; by apply (delete_folder_clears b p w)).
    destruct (Hempty w1 w2 Hgone Hrun2) as [Hd Hbs].
    split; [|by rewrite Hd].
    intros k Hk. split; [by apply Hgone|]. unfold objects. rewrite Hbs. by apply Hgone.
  - intros Hb Hnil.
    destruct (delete_folder_run b p w)
      as (w1 & r & d & Hrun1 & _ & _ & _ & _ & Hsome & _ & Hfaults).
    destruct (Hfaults Hb Hnil) as [-> Hnil1].
    destruct (delete_folder_run b p w1)
      as (w2 & r & d2 & Hrun2 & _ & _ & _ & _ & _ & _ & Hfaults2).
    destruct Hfaults2 as [-> _]; [by apply Hsome|done|]. eauto.
Qed.

Lemma C8_delete_folder_twice_witness :
  ∃ w1 w2,
    s3_service.delete_folder "demo" "docs/" demo = Some (w1, Return tt) ∧
    s3_service.delete_folder "demo" "docs/" w1 = Some (w2, Return tt) ∧
    objects w1 "demo" !! "docs/readme.txt" = None ∧
    objects w2 "demo" !! "docs/" = None ∧
    buckets w2 = buckets w1 ∧
    ∃ w3, s3_service.delete_folder "demo" "videos/" demo = Some (w3, Return tt) ∧
          buckets w3 = buckets demo.
Proof.
  destruct (C8_delete_folder_twice "demo" "docs/" demo) as (_ & Htwice & Hreturns).
  destruct Hreturns as (w1 & w2 & Hrun1 & Hrun2); [by eexists|done|].
  exists w1, w2. do 2 (split; [done|]).
  destruct (Htwice w1 w2 Hrun1 Hrun2) as (Hgone & _ & Hsame).
  split; [by apply Hgone|]. split; [by apply Hgone|]. split; [done|].
  destruct (C8_delete_folder_twice "demo" "videos/" demo) as (Hnoop & _ & _).
  eexists. split; [vm_compute; reflexivity|].
  apply Hnoop; [|vm_compute; reflexivity].
  intros k Hk. unfold demo, demo_buckets, world_of, objects. simpl.
  rewrite lookup_insert_eq. simpl.
  repeat (rewrite lookup_insert_ne; [|by intros <-]). done.
Defined.

(** * Provider errors *)








Lemma catches_try {A} (body : M A) msg (a : A) :
  catches (try_except body (λ e, print msg e ;;; ret a)).
Proof.
  intros w. unfold try_except, bind, print, ret.
  destruct (body w) as [w1 [x|e]]; eauto.
Qed.












(** ** What [list_objects] returns *)

Lemma filter_after_None (l : list entry) : filter (λ e, after None (marker e)) l = l.
Proof.
  induction l as [|e l IH]; [done|]. rewrite filter_cons. simpl.
  destruct (decide True); [by f_equal|done].
Qed.

Lemma present_default {A B} (l : list A) (f : list A → list B) :
  f [] = [] → match present l with Some x => f x | None => [] end = f l.
Proof. by destruct l. Qed.

(** The answer of the provider to the listing request of [list_objects]. *)
Lemma list_objects_v2_sem_delimited b p bs m :
  bs !! b = Some m →
  ∃ page, list_objects_v2_sem b p (Some "/") None bs = inr (bs, page) ∧
          CommonPrefixes page = present (omap common_prefix_of (shown m p)) ∧
          Contents page = present (omap (object_of m) (shown m p)).
Proof.
  intros Hm. unfold list_objects_v2_sem. rewrite Hm. eexists. split; [reflexivity|].
  unfold entries. simpl PyStr.truthy. cbv iota. by rewrite filter_after_None.
Qed.

(** [list_objects] either shows the page that the provider returned, or
    the provider raised and it shows nothing. *)
Lemma list_objects_cases b p w :
  (∃ m, buckets w !! b = Some m ∧ head (faults w) ≠ Some true ∧
        s3_service.list_objects b p w =
        (World (buckets w) (tail (faults w))
           (trace w ++ [(ListObjectsV2 b p (Some "/") None, None)]) (stdout w),
         Return (shown_folders m p, shown_files m p))) ∨
  (∃ e, (buckets w !! b = None ∨ head (faults w) = Some true) ∧
        s3_service.list_objects b p w =
        (World (buckets w) (tail (faults w))
           (trace w ++ [(ListObjectsV2 b p (Some "/") None, Some e)])
           (stdout w ++ [("Error listing objects:", e)]),
         Return ([], []))).
Proof.
  unfold s3_service.list_objects, try_except, bind, ret, print, list_objects_v2.
  destruct (call_cases (ListObjectsV2 b p (Some "/") None)
              (list_objects_v2_sem b p (Some "/") None) w)
    as [(Hf & ->)|[(Hf & e & Hs & ->)|(Hf & bs & page & Hs & ->)]].
  - right. exists ServiceUnavailable. split; [by right|done].
  - right. exists e. split; [|done]. left.
    destruct (buckets w !! b) as [m|] eqn:Hm; [|done].
    destruct (list_objects_v2_sem_delimited b p _ m Hm) as (page & Hpage & _). congruence.
  - left. destruct (buckets w !! b) as [m|] eqn:Hm.
    2:{ unfold list_objects_v2_sem in Hs. by rewrite Hm in Hs. }
    destruct (list_objects_v2_sem_delimited b p _ m Hm) as (page' & Hpage & Hcp & Hco).
    rewrite Hs in Hpage. injection Hpage as <- <-.
    exists m. do 2 (split; [done|]). simpl. rewrite Hcp, Hco.
    unfold shown_folders, shown_files.
    by rewrite (present_default _ id), (present_default _ (λ l, Key <$> filter _ l)).
Qed.






(** C10, as stated, fails in its comparison: [list_buckets] has no handler
    either, and the exception of its request reaches the caller. *)
Lemma C10_list_buckets_catches_nothing :
  (s3_service.list_buckets demo_first_fails).2 = Raise ServiceUnavailable ∧
  ¬ catches s3_service.list_buckets.
Proof.
  split; [reflexivity|]. intros Hcatches.
  destruct (Hcatches demo_first_fails) as (w' & a & Hrun).
  apply (f_equal snd) in Hrun. vm_compute in Hrun. discriminate Hrun.
Qed.

(** C10, amended: the gateway operations other than [list_buckets] and
    [delete_folder] never raise.  [delete_folder] has no handler and its
    result carries no indication of success: when a request raises, the
    call ends with that exception, having printed nothing and made no
    further request; the keys of the bulk deletes carried out before are
    gone, and every other key is as it was, so the folder is left partly
    deleted. *)
Theorem C10_delete_folder_not_atomic (b p : string) (w w' : world) (e : error_code) :
  s3_service.delete_folder b p w = Some (w', Raise e) →
  failed_with (delta w w') e ∧
  stdout w' = stdout w ∧
  (∀ k, objects w' b !! k =
        if decide (k ∈ concat (deleted_batches (delta w w'))) then None
        else objects w b !! k) ∧
  (∀ b', b' ≠ b → buckets w' !! b' = buckets w !! b') ∧
  (∀ region key b2 key2 body,
     catches (s3_service.list_objects b key) ∧
     catches (s3_service.create_bucket region b) ∧
     catches (s3_service.delete_bucket b) ∧
     catches (s3_service.upload_file b body key) ∧
     catches (s3_service.delete_file b key) ∧
     catches (s3_service.create_folder b key) ∧
     catches (s3_service.copy_file b key b2 key2) ∧
     catches (s3_service.move_file b key b2 key2)).
Proof.
  intros Hrun.
  destruct (delete_folder_run b p w) as (w1 & r & d & Hrun1 & Htr & Hout & Hobj & Hrest & _ & Hr & _).
  rewrite Hrun in Hrun1. injection Hrun1 as <- <-.
  rewrite (delta_app _ _ _ Htr). do 2 (split; [done|]).
  split; [by intros k; rewrite Hobj, lookup_delete_keys|]. split; [done|].
  intros region key b2 key2 body. repeat split; apply catches_try.
Qed.

Lemma C10_delete_folder_not_atomic_witness :
  ∃ w', s3_service.delete_folder "big" "f/" (big_folder 1500 [false; false; true])
          = Some (w', Raise ServiceUnavailable) ∧
        objects (big_folder 1500 [false; false; true]) "big" !! "f/0" = Some "" ∧
        objects w' "big" !! "f/0" = None ∧
        objects w' "big" !! "f/999" = Some "".
Proof.
  set (w := big_folder 1500 [false; false; true]).
  destruct (delete_folder_run "big" "f/" w) as (w' & r & d & Hrun & _).
  pose proof (f_equal (option_map snd) Hrun) as Hr. vm_compute in Hr.
  injection Hr as <-. exists w'. split; [exact Hrun|].
  split; [vm_compute; reflexivity|].
  destruct (C10_delete_folder_not_atomic "big" "f/" w w' ServiceUnavailable Hrun)
    as (_ & _ & Hkeys & _).
  assert (Hw' : w' = default w (fst <$> s3_service.delete_folder "big" "f/" w))
    by (by rewrite Hrun).
  rewrite !Hkeys, Hw'. split; vm_compute; reflexivity.
Defined.



(** * Folder prefixes *)

Lemma clean_inv seg : clean seg = true → seg ≠ "" ∧ has_char slash seg = false.
Proof.
  unfold clean. intros [Hne Hno]%andb_true_iff. split.
  - by intros ->.
  - by apply negb_true_iff.
Qed.

Lemma clean_head seg t : clean seg = true → PyStr.startswith (seg +:+ t) "/" = false.
Proof.
  intros [Hne Hno]%clean_inv. destruct seg as [|a s]; [by destruct Hne|].
  rewrite append_cons. simpl in Hno. apply orb_false_elim in Hno as [Ha _].
  change "/" with (String slash ""). by rewrite startswith_char.
Qed.

Lemma folder_prefix_snoc segs seg :
  folder_prefix (segs ++ [seg]) = (folder_prefix segs +:+ seg) +:+ "/".
Proof.
  induction segs as [|x segs IH]; simpl; [done|].
  by rewrite IH, !append_assoc.
Qed.

(** Splitting a folder prefix followed by anything: the segments, then the
    split of what follows. *)
Lemma split_folder_prefix segs s :
  Forall (λ seg, clean seg = true) segs →
  PyStr.split slash (folder_prefix segs +:+ s) = segs ++ PyStr.split slash s.
Proof.
  induction 1 as [|x segs [_ Hx]%clean_inv _ IH]; simpl; [done|].
  rewrite !append_assoc. change ("/" +:+ ?t) with (String slash t).
  by rewrite split_app_sep, (split_no_char slash x Hx), IH.
Qed.

Lemma folder_prefix_head segs s :
  Forall (λ seg, clean seg = true) segs → s = "" ∨ PyStr.startswith s "/" = false →
  folder_prefix segs +:+ s = "" ∨ PyStr.startswith (folder_prefix segs +:+ s) "/" = false.
Proof.
  intros Hsegs Hs. destruct Hsegs as [|x segs Hx _]; simpl; [done|].
  right. rewrite append_assoc. by apply clean_head.
Qed.

Lemma join_folder_prefix segs :
  segs ≠ [] → PyStr.join "/" segs +:+ "/" = folder_prefix segs.
Proof.
  induction segs as [|x segs IH]; [done|]. intros _.
  destruct segs as [|y segs]; [done|].
  change (PyStr.join "/" (x :: y :: segs))
    with (x +:+ "/" +:+ PyStr.join "/" (y :: segs)).
  rewrite !append_assoc, IH by done. done.
Qed.

Lemma join_truthy segs :
  Forall (λ seg, clean seg = true) segs → segs ≠ [] →
  PyStr.truthy (PyStr.join "/" segs) = true.
Proof.
  intros Hsegs Hne. destruct Hsegs as [|x segs [Hx _]%clean_inv _]; [done|].
  destruct x as [|a x]; [done|]. by destruct segs.
Qed.

(** Stripping and splitting a folder prefix gives its segments back. *)
Lemma breadcrumbs_folder_prefix segs :
  Forall (λ seg, clean seg = true) segs →
  main.breadcrumbs (folder_prefix segs) = segs.
Proof.
  intros Hsegs. destruct (decide (segs = [])) as [->|Hne]; [done|].
  destruct (exists_last Hne) as (init & seg & ->).
  apply Forall_app in Hsegs as [Hinit [Hseg _]%Forall_cons].
  destruct (clean_inv seg Hseg) as [Hsegne Hsegno].
  rewrite folder_prefix_snoc. unfold main.breadcrumbs.
  assert (PyStr.truthy ((folder_prefix init +:+ seg) +:+ "/") = true) as ->
    by (by destruct (folder_prefix init +:+ seg)).
  unfold PyStr.strip. change "/" with (String slash "") at 1.
  rewrite rstrip_snoc, rstrip_app_clean by done.
  rewrite lstrip_id.
  - rewrite split_folder_prefix by done. by rewrite (split_no_char slash seg).
  - assert (Hseghead : seg = "" ∨ PyStr.startswith seg "/" = false).
    { right. rewrite <- (append_nil_r seg). by apply clean_head. }
    destruct (folder_prefix_head init seg Hinit Hseghead) as [Hnil|Hhead]; [|done].
    apply (f_equal String.length) in Hnil. rewrite length_append in Hnil.
    destruct seg; [congruence|]. simpl in Hnil. lia.
Qed.

(** X1: the breadcrumbs that [view_bucket] computes for the prefix of a
    folder, that is for segments that are not empty and have no ["/"], each
    followed by ["/"], are those segments, in order (none for the empty
    prefix). *)
Theorem breadcrumbs_of_folder_prefix (segs : list string) :
  Forall (λ seg, clean seg = true) segs →
  main.breadcrumbs (folder_prefix segs) = segs.
Proof. apply breadcrumbs_folder_prefix. Qed.

(** X2: the parent path that [view_bucket] computes for the prefix of a
    folder is the prefix of the folder it is in (the empty prefix for a
    folder of the root), and the breadcrumbs of that parent path are the
    segments but the last. *)
Theorem parent_path_of_folder_prefix (segs : list string) (seg : string) :
  Forall (λ seg, clean seg = true) segs → clean seg = true →
  main.parent_path (folder_prefix (segs ++ [seg])) = folder_prefix segs ∧
  main.breadcrumbs (main.parent_path (folder_prefix (segs ++ [seg]))) = segs.
Proof.
  intros Hsegs Hseg.
  assert (Hparent : main.parent_path (folder_prefix (segs ++ [seg])) = folder_prefix segs).
  { destruct (clean_inv seg Hseg) as [Hsegne Hsegno].
    rewrite folder_prefix_snoc. unfold main.parent_path.
    change "/" with (String slash "") at 1 3.
    rewrite rstrip_snoc, rstrip_app_clean by done.
    rewrite split_folder_prefix, (split_no_char slash seg) by done.
    unfold PyStr.but_last. rewrite removelast_last.
    destruct (decide (segs = [])) as [->|Hne]; [done|].
    cbv zeta. change (String slash "") with "/".
    rewrite (join_truthy segs) by done. by apply join_folder_prefix. }
  split; [done|]. rewrite Hparent. by apply breadcrumbs_folder_prefix.
Qed.

(** The file name of a key: what follows its last ["/"]. *)
Lemma last_segment_file_name dir name :
  dir = "" ∨ PyStr.endswith dir slash = true →
  has_char slash name = false →
  PyStr.last_segment (PyStr.split slash (dir +:+ name)) = name.
Proof.
  intros Hdir Hname. destruct Hdir as [->|[d ->]%endswith_inv].
  - change ("" +:+ name) with name. by rewrite (split_no_char slash name).
  - rewrite append_assoc. change (String slash "" +:+ name) with (String slash name).
    rewrite split_app_sep, last_segment_app by apply split_not_nil.
    by rewrite (split_no_char slash name).
Qed.

(** X3: the destination of a copy or a move is the destination path followed
    by the file name of the source key, that is by what follows its last
    ["/"]: nothing of the folders of the source is kept, and the destination
    path itself is the destination of a key that ends in ["/"]. *)
Theorem destination_key_file_name (dir name destination_path : string) :
  dir = "" ∨ PyStr.endswith dir slash = true →
  has_char slash name = false →
  main.destination_key (dir +:+ name) destination_path = destination_path +:+ name.
Proof.
  intros Hdir Hname. unfold main.destination_key.
  by rewrite last_segment_file_name.
Qed.

(** * Objects: deleting, uploading, copying *)

(** A request is answered by the provider's semantics when no fault is
    scheduled for it. *)
Lemma call_no_fault {A} (r : request) sem (w : world) :
  head (faults w) ≠ Some true →
  call (A := A) r sem w =
  match sem (buckets w) with
  | inl e => (World (buckets w) (tail (faults w)) (trace w ++ [(r, Some e)]) (stdout w),
              Raise e)
  | inr (bs, a) => (World bs (tail (faults w)) (trace w ++ [(r, None)]) (stdout w),
                    Return a)
  end.
Proof.
  intros Hf. unfold call. destruct (faults w) as [|[] fs]; simpl in *; [done| |done].
  by destruct Hf.
Qed.

Lemma store_returns b k body (bs bs' : gmap string (gmap string string)) :
  store b k body bs = inr (bs', tt) →
  ∃ m, bs !! b = Some m ∧ bs' = <[b := <[k := body]> m]> bs.
Proof.
  unfold store. destruct (bs !! b) as [m|]; [|done]. intros [= <-]. eauto.
Qed.

(** What a successful upload leaves: the body at the key, nothing else
    touched. *)
Lemma upload_fileobj_returns f b k w w1 :
  upload_fileobj f b k w = (w1, Return tt) →
  objects w1 b !! k = Some f ∧
  ∀ b' k', (b', k') ≠ (b, k) → objects w1 b' !! k' = objects w b' !! k'.
Proof.
  intros (_ & _ & _ & _ & _ & (m & Hm & Hbs)%store_returns)%call_frame.
  unfold objects. rewrite Hbs. split.
  - by rewrite lookup_insert_eq; simpl; rewrite lookup_insert_eq.
  - intros b' k' Hne. destruct (decide (b' = b)) as [->|Hb].
    + rewrite lookup_insert_eq, Hm. simpl. apply lookup_insert_ne. congruence.
    + by rewrite lookup_insert_ne.
Qed.

(** What a successful copy leaves: the body of the source at the
    destination, which is another key, and nothing else touched. *)
Lemma copy_object_returns sb sk db dk w w1 :
  copy_object sb sk db dk w = (w1, Return tt) →
  (sb, sk) ≠ (db, dk) ∧
  ∃ body, objects w sb !! sk = Some body ∧
          objects w1 db !! dk = Some body ∧
          ∀ b k, (b, k) ≠ (db, dk) → objects w1 b !! k = objects w b !! k.
Proof.
  intros (_ & _ & _ & _ & _ & Hsem)%call_frame. unfold objects.
  destruct (buckets w !! sb) as [src|] eqn:Hsrc; [|done].
  destruct (buckets w !! db) as [dst|] eqn:Hdst; [|done].
  destruct (src !! sk) as [body|] eqn:Hbody; [|done].
  case_bool_decide as Hself; [done|]. injection Hsem as <-.
  split; [by intros [= -> ->]; apply Hself|].
  exists body. split; [done|]. split.
  - by rewrite lookup_insert_eq; simpl; rewrite lookup_insert_eq.
  - intros b k Hne. destruct (decide (b = db)) as [->|Hb].
    + rewrite lookup_insert_eq, Hdst. simpl. apply lookup_insert_ne. congruence.
    + by rewrite lookup_insert_ne.
Qed.

(** X4: on a bucket name and a key that pass the client's validation,
    [delete_file] returns [True] or [False].  After [True] the key is
    absent and every other key of every bucket is as it was; if the key was
    already absent no bucket has changed.  After [False] no bucket has
    changed.  With the bucket there, a key within the provider's limit and
    no fault scheduled for the request it returns [True], whether the key
    was there or not. *)
Theorem delete_file_removes (b k : string) (w w' : world) (r : outcome bool) :
  valid_bucket_name b = true → valid_key k = true →
  s3_service.delete_file b k w = (w', r) →
  (r = Return true →
   objects w' b !! k = None ∧
   (∀ b' k', (b', k') ≠ (b, k) → objects w' b' !! k' = objects w b' !! k') ∧
   (objects w b !! k = None → buckets w' = buckets w)) ∧
  (r ≠ Return true → r = Return false ∧ buckets w' = buckets w) ∧
  (is_Some (buckets w !! b) → String.length k ≤ max_key_length →
   head (faults w) ≠ Some true → r = Return true).
Proof.
  intros _ _. rewrite delete_file_run. unfold handled.
  destruct (delete_object b k w) as [w1 [[]|e]] eqn:Hdel; intros [= <- <-].
  - split; [|split; [done|done]]. intros _.
    destruct (delete_object_returns _ _ _ _ Hdel) as [Hgone Hrest].
    do 2 (split; [done|]). intros Hk.
    apply call_frame in Hdel as (_ & _ & _ & _ & _ & Hsem). unfold objects in Hk.
    destruct (buckets w !! b) as [m|] eqn:Hm; [|done]. injection Hsem as <-.
    simpl in Hk. by rewrite (delete_id m), (insert_id (buckets w)).
  - split; [done|]. split.
    + intros _. split; [done|]. simpl.
      by apply call_frame in Hdel as (_ & _ & _ & _ & _ & ?).
    + intros [m Hm] _ Hf. unfold delete_object in Hdel.
      rewrite (call_no_fault _ _ _ Hf), Hm in Hdel. discriminate Hdel.
Qed.

(** X5: on a bucket name and a key that pass the client's validation,
    [upload_file] returns [True] or [False].  After [True] the key holds
    the uploaded content and no other key has changed; after [False] no
    bucket has changed.  With the bucket there, a key within the provider's
    limit and no fault scheduled for the request it returns [True]. *)
Theorem upload_file_stores (b f k : string) (w w' : world) (r : outcome bool) :
  valid_bucket_name b = true → valid_key k = true →
  s3_service.upload_file b f k w = (w', r) →
  (r = Return true →
   objects w' b !! k = Some f ∧
   ∀ b' k', (b', k') ≠ (b, k) → objects w' b' !! k' = objects w b' !! k') ∧
  (r ≠ Return true → r = Return false ∧ buckets w' = buckets w) ∧
  (is_Some (buckets w !! b) → String.length k ≤ max_key_length →
   head (faults w) ≠ Some true → r = Return true).
Proof.
  intros _ _. rewrite upload_file_run. unfold handled.
  destruct (upload_fileobj f b k w) as [w1 [[]|e]] eqn:Hup; intros [= <- <-].
  - split; [|split; [done|done]]. intros _. by apply upload_fileobj_returns.
  - split; [done|]. split.
    + intros _. split; [done|]. simpl.
      by apply call_frame in Hup as (_ & _ & _ & _ & _ & ?).
    + intros [m Hm] _ Hf. unfold upload_fileobj in Hup.
      rewrite (call_no_fault _ _ _ Hf) in Hup. unfold store in Hup.
      rewrite Hm in Hup. discriminate Hup.
Qed.

(** X6: on bucket names and keys that pass the client's validation,
    [copy_file] returns [True] or [False].  After [True] the destination
    holds the body that the source has, source and destination are not the
    same key, and every key but the destination is as it was.  After
    [False] no bucket has changed.  It returns [False] when there is no
    object at the source key, and when the destination is the source. *)
Theorem copy_file_copies (sb sk db dk : string) (w w' : world) (r : outcome bool) :
  valid_bucket_name sb = true → valid_key sk = true →
  valid_bucket_name db = true → valid_key dk = true →
  s3_service.copy_file sb sk db dk w = (w', r) →
  (r = Return true →
   (sb, sk) ≠ (db, dk) ∧
   ∃ body, objects w sb !! sk = Some body ∧
           objects w' db !! dk = Some body ∧
           ∀ b k, (b, k) ≠ (db, dk) → objects w' b !! k = objects w b !! k) ∧
  (r ≠ Return true → r = Return false ∧ buckets w' = buckets w) ∧
  (objects w sb !! sk = None ∨ (sb, sk) = (db, dk) → r = Return false).
Proof.
  intros _ _ _ _. rewrite copy_file_run. unfold handled.
  destruct (copy_object sb sk db dk w) as [w1 [[]|e]] eqn:Hcopy; intros [= <- <-].
  - destruct (copy_object_returns _ _ _ _ _ _ Hcopy) as (Hne & body & Hsrc & Hdst & Hrest).
    split; [by eauto 6|]. split; [done|].
    intros [Hnone|Hsame]; [congruence|done].
  - split; [done|]. split; [|done]. intros _. split; [done|]. simpl.
    by apply call_frame in Hcopy as (_ & _ & _ & _ & _ & ?).
Qed.

(** X7: when the copy of [move_file] succeeds and its delete raises, the call
    still returns [True], the error of the delete is printed, and the
    object is at both keys. *)
Theorem move_file_duplicates (sb sk db dk : string) (w w1 w2 : world) (e : error_code) :
  copy_object sb sk db dk w = (w1, Return tt) →
  delete_object sb sk w1 = (w2, Raise e) →
  ∃ w' body,
    s3_service.move_file sb sk db dk w = (w', Return true) ∧
    delta w w' = [(CopyObject sb sk db dk, None); (DeleteObject sb sk, Some e)] ∧
    stdout w' = stdout w ++ [("Delete file failed:", e)] ∧
    objects w sb !! sk = Some body ∧
    objects w' sb !! sk = Some body ∧
    objects w' db !! dk = Some body.
Proof.
  intros Hcopy Hdel.
  destruct (copy_object_returns _ _ _ _ _ _ Hcopy) as (Hne & body & Hsrc & Hdst & Hrest).
  rewrite move_file_run, Hcopy. simpl. rewrite Hdel. simpl.
  apply call_frame in Hcopy as (_ & Hout1 & e1 & Ht1 & -> & _).
  apply call_frame in Hdel as (_ & Hout2 & e2 & Ht2 & -> & Hbs).
  eexists _, body. split; [reflexivity|].
  split; [apply delta_app; simpl; by rewrite Ht2, Ht1, <- app_assoc|].
  split; [simpl; by rewrite Hout2, Hout1|].
  split; [done|]. unfold objects in *. simpl. rewrite Hbs.
  split; [|done]. by rewrite Hrest.
Qed.

(** * The folder view *)

Lemma length_shown m p : length (shown m p) ≤ MaxKeys.
Proof. unfold shown. rewrite length_take. apply Nat.le_min_l. Qed.

(** An entry of a page is a folder or a file, never both. *)
Lemma length_shown_split m p :
  length (shown_folders m p) + length (shown_files m p) ≤ length (shown m p).
Proof.
  unfold shown_folders, shown_files. rewrite length_fmap.
  induction (shown m p) as [|e l IH]; [done|].
  destruct e as [k|cp]; csimpl.
  - rewrite filter_cons. destruct (decide _); csimpl; lia.
  - lia.
Qed.

(** X8: [list_objects] makes one request and returns at most [MaxKeys]
    entries, folders and files together. *)
Theorem list_objects_one_page (b p : string) (w w' : world) (folders files : list string) :
  s3_service.list_objects b p w = (w', Return (folders, files)) →
  length folders + length files ≤ 1000 ∧
  ∃ err, delta w w' = [(ListObjectsV2 b p (Some "/") None, err)].
Proof.
  intros Hrun.
  destruct (list_objects_cases b p w) as [(m & _ & _ & Hl)|(e & _ & Hl)];
    rewrite Hl in Hrun; injection Hrun as <- <- <-.
  - split; [|by eexists; apply delta_app].
    pose proof (length_shown_split m p). pose proof (length_shown m p).
    change MaxKeys with 1000 in *. lia.
  - split; [simpl; lia|by eexists; apply delta_app].
Qed.

(** ** What a delimited listing makes of a key *)

Section Grouping.
Variable c : ascii.

Lemma substring_all s : String.substring 0 (String.length s) s = s.
Proof. induction s as [|a s IH]; simpl; [done|]. by rewrite IH. Qed.

Lemma substring_skip p m s :
  String.substring (String.length p) m (p +:+ s) = String.substring 0 m s.
Proof. induction p as [|a p IH]; [done|]. rewrite append_cons. simpl. apply IH. Qed.

Lemma substring_rest p s :
  String.substring (String.length p) (String.length (p +:+ s) - String.length p) (p +:+ s)
  = s.
Proof.
  rewrite substring_skip, length_append.
  replace (String.length p + String.length s - String.length p) with (String.length s)
    by lia.
  apply substring_all.
Qed.

Lemma index_no_char name :
  has_char c name = false → String.index 0 (String c "") name = None.
Proof.
  induction name as [|a name IH]; [done|]. simpl has_char.
  intros [Ha Hname]%orb_false_elim. cbn [String.index].
  change (String.prefix (String c "") (String a name))
    with (PyStr.startswith (String a name) (String c "")).
  by rewrite startswith_char, Ha, (IH Hname).
Qed.

Lemma index_first_sep name rest :
  has_char c name = false →
  String.index 0 (String c "") (name +:+ String c rest) = Some (String.length name).
Proof.
  induction name as [|a name IH].
  - intros _. change ("" +:+ String c rest) with (String c rest). cbn [String.index].
    change (String.prefix (String c "") (String c rest))
      with (PyStr.startswith (String c rest) (String c "")).
    by rewrite startswith_char, Ascii.eqb_refl.
  - simpl has_char. intros [Ha Hname]%orb_false_elim.
    rewrite append_cons. cbn [String.index].
    change (String.prefix (String c "") (String a (name +:+ String c rest)))
      with (PyStr.startswith (String a (name +:+ String c rest)) (String c "")).
    by rewrite startswith_char, Ha, (IH Hname).
Qed.

Lemma substring_through_sep name rest :
  String.substring 0 (String.length name + 1) (name +:+ String c rest)
  = name +:+ String c "".
Proof.
  induction name as [|a name IH].
  - change ("" +:+ String c rest) with (String c rest). simpl. by destruct rest.
  - rewrite !append_cons. simpl. by rewrite IH.
Qed.

End Grouping.

Lemma startswith_append p s : PyStr.startswith (p +:+ s) p = true.
Proof.
  unfold PyStr.startswith. induction p as [|a p IH]; [by destruct s|].
  rewrite append_cons. simpl. by destruct (ascii_dec a a).
Qed.

(** A key that has no ["/"] after the prefix is listed as an object. *)
Lemma roll_up_file p name :
  has_char slash name = false → roll_up p "/" (p +:+ name) = Object (p +:+ name).
Proof.
  intros Hname. unfold roll_up. rewrite substring_rest.
  change "/" with (String slash ""). by rewrite index_no_char.
Qed.

(** A key that has a ["/"] after the prefix is rolled up into the common
    prefix that ends at the first one. *)
Lemma roll_up_folder p name rest :
  has_char slash name = false →
  roll_up p "/" (p +:+ name +:+ "/" +:+ rest) = CommonPrefix (p +:+ name +:+ "/").
Proof.
  intros Hname. unfold roll_up. rewrite substring_rest.
  change ("/" +:+ rest) with (String slash rest). change "/" with (String slash "").
  rewrite index_first_sep by done. simpl String.length.
  by rewrite substring_through_sep.
Qed.

Lemma length_remove_dups `{EqDecision A} (l : list A) : length (remove_dups l) ≤ length l.
Proof.
  induction l as [|x l IH]; [done|]. simpl.
  destruct (decide_rel elem_of x l); simpl; lia.
Qed.

(** A bucket that fits in a page is shown whole. *)
Lemma shown_all m p :
  size m ≤ MaxKeys →
  shown m p = remove_dups (roll_up p "/" <$> filter (λ k, PyStr.startswith k p) (sorted_keys m)).
Proof.
  intros Hsize. unfold shown. apply take_ge.
  etrans; [apply length_remove_dups|]. rewrite length_fmap.
  etrans; [apply length_filter|]. by rewrite length_sorted_keys.
Qed.

Lemma entry_shown m p k :
  size m ≤ MaxKeys → is_Some (m !! k) → PyStr.startswith k p = true →
  roll_up p "/" k ∈ shown m p.
Proof.
  intros Hsize Hk Hp. rewrite shown_all by done.
  apply elem_of_remove_dups, list_elem_of_fmap_2, list_elem_of_filter.
  split; [by apply Is_true_true|by apply elem_of_sorted_keys].
Qed.

Lemma file_shown m p k :
  size m ≤ MaxKeys → is_Some (m !! k) → PyStr.startswith k p = true →
  roll_up p "/" k = Object k → k ≠ p → k ∈ shown_files m p.
Proof.
  intros Hsize Hk Hp Hroll Hne. unfold shown_files.
  apply list_elem_of_fmap. exists (summary m k). split; [done|].
  apply list_elem_of_filter. split; [done|].
  apply list_elem_of_omap. exists (Object k). split; [|done].
  rewrite <- Hroll. by apply entry_shown.
Qed.

Lemma folder_shown m p k cp :
  size m ≤ MaxKeys → is_Some (m !! k) → PyStr.startswith k p = true →
  roll_up p "/" k = CommonPrefix cp → cp ∈ shown_folders m p.
Proof.
  intros Hsize Hk Hp Hroll. unfold shown_folders.
  apply list_elem_of_omap. exists (CommonPrefix cp). split; [|done].
  rewrite <- Hroll. by apply entry_shown.
Qed.

(** ** Creating a folder or uploading a file, then viewing the folder *)

Lemma view_bucket_shows b p w m :
  buckets w !! b = Some m → faults w = [] →
  ∃ w' v, main.view_bucket b p w = (w', Return v) ∧
          main.current_path v = p ∧
          main.folders v = shown_folders m p ∧
          main.files v = shown_files m p.
Proof.
  intros Hm Hnil. unfold main.view_bucket, bind, ret.
  destruct (list_objects_cases b p w) as [(m' & Hm' & _ & ->)|(e & [Hb|Hf] & _)].
  - rewrite Hm in Hm'. injection Hm' as <-. by eexists _, _.
  - congruence.
  - by rewrite Hnil in Hf.
Qed.


(** X10: with a bucket of fewer than [MaxKeys] objects, no fault scheduled,
    a file name that is not empty and has no ["/"], and a key
    [prefix + filename] within the provider's limit, the upload route stores
    the content under that key and redirects to the folder, and a view of
    the prefix then has the key among its files. *)
Theorem upload_file_then_view (b p filename file : string) (w : world) (m : gmap string string) :
  buckets w !! b = Some m → size m < MaxKeys → faults w = [] →
  clean filename = true → String.length (p +:+ filename) ≤ max_key_length →
  ∃ w1 w2 v,
    main.upload_file b p filename file w = (w1, Return (main.redirect b p)) ∧
    objects w1 b !! (p +:+ filename) = Some file ∧
    main.view_bucket b p w1 = (w2, Return v) ∧
    p +:+ filename ∈ main.files v.
Proof.
  intros Hm Hsize Hnil [Hne Hclean]%clean_inv _. set (key := p +:+ filename).
  unfold main.upload_file, bind at 1. fold key.
  rewrite upload_file_run. unfold upload_fileobj.
  rewrite call_no_fault by (by rewrite Hnil). unfold store. rewrite Hm, Hnil. simpl.
  set (w1 := World _ _ _ _).
  destruct (view_bucket_shows b p w1 (<[key := file]> m)) as (w2 & v & Hview & _ & _ & Hfiles);
    [apply lookup_insert_eq|done|].
  exists w1, w2, v. split; [done|].
  split; [by unfold objects; simpl; rewrite lookup_insert_eq; simpl; rewrite lookup_insert_eq|].
  split; [done|]. rewrite Hfiles.
  apply file_shown.
  - rewrite map_size_insert. destruct (m !! key); simpl; lia.
  - rewrite lookup_insert_eq. by eexists.
  - apply startswith_append.
  - by apply roll_up_file.
  - unfold key. rewrite <- (append_nil_r p) at 2. intros Heq%(inj (String.app p)).
    by apply Hne.
Qed.

(** * Deleting a bucket *)

Lemma filter_all {A} (P : A → Prop) `{∀ x, Decision (P x)} (l : list A) :
  (∀ x, P x) → filter P l = l.
Proof.
  intros HP. induction l as [|x l IH]; [done|].
  rewrite filter_cons, IH. by rewrite decide_True.
Qed.

(** Without prefix and token the listing is all the keys of the bucket. *)
Lemma listed_everything m : listed m "" None = sorted_keys m.
Proof.
  unfold listed. rewrite (filter_all (λ k, after None k)) by done.
  apply filter_all. intros k. by destruct k.
Qed.

Lemma delete_keys_all m : delete_keys (sorted_keys m) m = ∅.
Proof.
  apply map_empty. intros k. rewrite lookup_delete_keys. case_decide as Hk; [done|].
  rewrite elem_of_sorted_keys in Hk. by apply eq_None_not_Some.
Qed.

Lemma size_delete_keys ks (m : gmap string string) :
  NoDup ks → (∀ k, k ∈ ks → is_Some (m !! k)) →
  size (delete_keys ks m) = size m - length ks.
Proof.
  induction 1 as [|k ks Hk _ IH]; intros Hin; simpl; [lia|].
  rewrite map_size_delete_Some, IH.
  - lia.
  - intros k' Hk'. apply Hin. by right.
  - fold (delete_keys ks m). rewrite lookup_delete_keys, decide_False by done.
    apply Hin. by left.
Qed.

(** What is left of a bucket once the first page of its keys is deleted. *)
Lemma size_after_first_page m :
  size (delete_keys (take MaxKeys (sorted_keys m)) m) = size m - MaxKeys.
Proof.
  rewrite size_delete_keys.
  - rewrite length_take, length_sorted_keys. lia.
  - pose proof (sorted_keys_NoDup m) as Hnd.
    rewrite <- (take_drop MaxKeys (sorted_keys m)) in Hnd.
    by apply NoDup_app in Hnd as [? _].
  - intros k Hk%subseteq_take. by apply elem_of_sorted_keys.
Qed.

(** The loop of [delete_bucket] when no fault is scheduled: one delete
    request per listed object, in the order of the listing. *)
Lemma for_each_delete_object b (objs : list object_summary) : ∀ w m,
  buckets w !! b = Some m → faults w = [] →
  s3_service.for_each objs (λ obj, delete_object b (Key obj)) w =
  (World (<[b := delete_keys (Key <$> objs) m]> (buckets w)) []
     (trace w ++ ((λ obj, (DeleteObject b (Key obj), None)) <$> objs)) (stdout w),
   Return tt).
Proof.
  induction objs as [|obj objs IH]; intros w m Hm Hnil.
  - simpl. unfold ret. rewrite app_nil_r, (insert_id _ _ _ Hm), <- Hnil. by destruct w.
  - simpl s3_service.for_each. unfold bind, delete_object at 1.
    rewrite call_no_fault by (by rewrite Hnil). rewrite Hm, Hnil. simpl tail.
    rewrite (IH _ (delete (Key obj) m)); [|apply lookup_insert_eq|done].
    simpl. rewrite insert_insert_eq, <- app_assoc. do 3 f_equal.
    unfold delete_keys. by rewrite delete_foldr_delete.
Qed.

Lemma contents_loop {B} (l : list object_summary) (f : list object_summary → M B) k :
  f [] = k →
  match present l with Some objs => f objs | None => k end = f l.
Proof. by destruct l. Qed.

(** [delete_bucket] when the bucket is there and no fault is scheduled: it
    lists the first page of keys, deletes them one by one, and asks for the
    bucket to be deleted, which the provider does if nothing is left. *)
Lemma delete_bucket_run b w m :
  buckets w !! b = Some m → faults w = [] →
  let ks := take MaxKeys (sorted_keys m) in
  let requests err :=
    (ListObjectsV2 b "" None None, None) ::
    ((λ k, (DeleteObject b k, None)) <$> ks) ++ [(DeleteBucket b, err)] in
  s3_service.delete_bucket b w =
  if decide (delete_keys ks m = ∅)
  then (World (delete b (buckets w)) [] (trace w ++ requests None) (stdout w), Return true)
  else (World (<[b := delete_keys ks m]> (buckets w)) []
          (trace w ++ requests (Some BucketNotEmpty))
          (stdout w ++ [("Delete bucket failed:", BucketNotEmpty)]),
        Return false).
Proof.
  intros Hm Hnil ks requests. unfold s3_service.delete_bucket, try_except.
  unfold bind at 1. unfold list_objects_v2.
  rewrite call_no_fault by (by rewrite Hnil).
  rewrite (list_objects_v2_sem_plain _ _ _ _ _ Hm), listed_everything, Hnil.
  cbn [Contents tail]. fold ks.
  rewrite (contents_loop _ (λ objs, s3_service.for_each objs _)) by done.
  unfold bind at 1.
  erewrite for_each_delete_object; [|exact Hm|done].
  rewrite Key_summary. cbn [buckets faults trace stdout].
  unfold bind, S3.delete_bucket. rewrite call_no_fault by done.
  cbn [buckets faults trace stdout tail]. rewrite lookup_insert_eq.
  rewrite <- list_fmap_compose.
  destruct (decide (delete_keys ks m = ∅)) as [Hempty|Hleft]; simpl.
  - unfold ret. by rewrite delete_insert_eq, <- !app_assoc.
  - unfold print, ret. simpl. by rewrite <- !app_assoc.
Qed.

Lemma delete_bucket_within_a_page_run b w m :
  buckets w !! b = Some m → faults w = [] → size m ≤ MaxKeys →
  ∃ w', s3_service.delete_bucket b w = (w', Return true) ∧
        buckets w' = delete b (buckets w).
Proof.
  intros Hm Hnil Hsize. rewrite (delete_bucket_run b w m Hm Hnil).
  rewrite take_ge by (by rewrite length_sorted_keys).
  rewrite decide_True by apply delete_keys_all. by eexists.
Qed.

(** X11: a bucket of at most [MaxKeys] objects, no fault scheduled:
    [delete_bucket] deletes every object with a request of its own, in key
    order, then the bucket, and returns [True]; the other buckets are
    untouched. *)
Theorem delete_bucket_within_a_page (b : string) (w : world) (m : gmap string string) :
  buckets w !! b = Some m → faults w = [] → size m ≤ MaxKeys →
  ∃ w', s3_service.delete_bucket b w = (w', Return true) ∧
        buckets w' = delete b (buckets w) ∧
        delta w w' = (ListObjectsV2 b "" None None, None) ::
                     ((λ k, (DeleteObject b k, None)) <$> sorted_keys m) ++
                     [(DeleteBucket b, None)].
Proof.
  intros Hm Hnil Hsize. rewrite (delete_bucket_run b w m Hm Hnil).
  rewrite take_ge by (by rewrite length_sorted_keys).
  rewrite decide_True by apply delete_keys_all.
  eexists. split; [done|]. split; [done|]. by apply delta_app.
Qed.

(** X12: a bucket of more than [MaxKeys] objects, no fault scheduled:
    [delete_bucket] deletes the first [MaxKeys] objects in key order, the
    provider refuses to delete the bucket, which is not empty, and the call
    prints the error and returns [False], leaving the bucket with the other
    objects. *)
Theorem delete_bucket_beyond_a_page (b : string) (w : world) (m : gmap string string) :
  buckets w !! b = Some m → faults w = [] → MaxKeys < size m →
  ∃ w', s3_service.delete_bucket b w = (w', Return false) ∧
        objects w' b = delete_keys (take MaxKeys (sorted_keys m)) m ∧
        size (objects w' b) = size m - MaxKeys ∧
        (∀ b', b' ≠ b → buckets w' !! b' = buckets w !! b') ∧
        delta w w' = (ListObjectsV2 b "" None None, None) ::
                     ((λ k, (DeleteObject b k, None)) <$> take MaxKeys (sorted_keys m)) ++
                     [(DeleteBucket b, Some BucketNotEmpty)] ∧
        stdout w' = stdout w ++ [("Delete bucket failed:", BucketNotEmpty)].
Proof.
  intros Hm Hnil Hsize. rewrite (delete_bucket_run b w m Hm Hnil).
  pose proof (size_after_first_page m) as Hleft.
  rewrite decide_False.
  2:{ intros Hempty. rewrite Hempty, map_size_empty in Hleft. lia. }
  eexists. split; [done|]. unfold objects. simpl. rewrite lookup_insert_eq. simpl.
  do 2 (split; [done|]). split; [by intros b' Hb'; rewrite lookup_insert_ne|].
  split; [by apply delta_app|done].
Qed.

(** ** [delete_bucket] under any schedule of faults *)

Lemma shrinks_refl b w w' : buckets w' = buckets w → shrinks b w w'.
Proof. intros Hbs. unfold shrinks, objects. by rewrite Hbs. Qed.

Lemma shrinks_trans b w1 w2 w3 : shrinks b w1 w2 → shrinks b w2 w3 → shrinks b w1 w3.
Proof.
  intros (Hr1 & Hs1 & Ho1) (Hr2 & Hs2 & Ho2). split; [|split].
  - intros b' Hb'. by rewrite Hr2, Hr1.
  - by rewrite Hs2.
  - intros k v Hk. by apply Ho1, Ho2.
Qed.

Lemma delete_object_shrinks b k w w1 o :
  delete_object b k w = (w1, o) → shrinks b w w1.
Proof.
  intros (_ & _ & err & _ & Ho)%call_frame.
  destruct o as [[]|e]; [|by destruct Ho as [_ ?]; apply shrinks_refl].
  destruct Ho as [_ Hsem].
  destruct (buckets w !! b) as [m|] eqn:Hm; [|done]. injection Hsem as Hbs.
  unfold shrinks, objects. rewrite <- Hbs, Hm. split; [|split].
  - intros b' Hb'. by rewrite lookup_insert_ne.
  - rewrite lookup_insert_eq. split; eauto.
  - intros k' v. rewrite lookup_insert_eq. simpl. by intros [_ ?]%lookup_delete_Some.
Qed.

Lemma for_each_shrinks b (objs : list object_summary) : ∀ w w' o,
  s3_service.for_each objs (λ obj, delete_object b (Key obj)) w = (w', o) →
  shrinks b w w'.
Proof.
  induction objs as [|obj objs IH]; intros w w' o; simpl.
  - intros [= <- _]. by apply shrinks_refl.
  - unfold bind. destruct (delete_object b (Key obj) w) as [w1 [[]|e]] eqn:Hdel.
    + intros Hrest. eapply shrinks_trans; [by eapply delete_object_shrinks|by eapply IH].
    + intros [= <- _]. by eapply delete_object_shrinks.
Qed.

(** X13: on a bucket name that passes the client's validation, whatever
    faults are scheduled, [delete_bucket] returns [True] or [False], never
    touches another bucket and never changes the body of an object.  After
    [True] the bucket is gone.  After [False] the bucket is there if and
    only if it was there before, with some or all of the objects it had. *)
Theorem delete_bucket_outcome (b : string) (w w' : world) (r : outcome bool) :
  valid_bucket_name b = true →
  s3_service.delete_bucket b w = (w', r) →
  (∀ b', b' ≠ b → buckets w' !! b' = buckets w !! b') ∧
  (r = Return true → buckets w' !! b = None) ∧
  (r ≠ Return true → r = Return false ∧ shrinks b w w').
Proof.
  intros _. unfold s3_service.delete_bucket, try_except, bind, ret, print.
  destruct (list_objects_v2 b "" None None w) as [w1 [page|e]] eqn:Hlist.
  2:{ apply call_frame in Hlist as (_ & _ & _ & _ & _ & Hbs).
      intros [= <- <-]. simpl.
      split; [by intros; rewrite Hbs|]. split; [done|]. intros _.
      split; [done|]. by apply shrinks_refl. }
  assert (Hw1 : buckets w1 = buckets w).
  { apply call_frame in Hlist as (_ & _ & _ & _ & _ & Hsem).
    unfold list_objects_v2_sem in Hsem. destruct (buckets w !! b); [|done].
    by injection Hsem as <- _. }
  set (loop := match Contents page with Some objs => _ | None => _ end).
  assert (Hloop : ∀ w2 o, loop w1 = (w2, o) → shrinks b w w2).
  { intros w2 o Hrun. eapply shrinks_trans; [by apply shrinks_refl|].
    subst loop. destruct (Contents page) as [objs|].
    - by eapply for_each_shrinks.
    - injection Hrun as <- _. by apply shrinks_refl. }
  destruct (loop w1) as [w2 [[]|e]] eqn:Hrun; specialize (Hloop _ _ eq_refl).
  2:{ intros [= <- <-]. destruct Hloop as (Hrest & Hsome & Hobj).
      split; [done|]. split; [done|]. intros _. split; [done|].
      split; [done|]. by split. }
  destruct (S3.delete_bucket b w2) as [w3 [[]|e]] eqn:Hdel;
    apply call_frame in Hdel as (_ & _ & _ & _ & _ & Hbs); intros [= <- <-].
  - destruct Hloop as (Hrest & _ & _).
    destruct (buckets w2 !! b) as [m2|] eqn:Hm2; [|done].
    destruct (decide (m2 = ∅)); [|done]. injection Hbs as <-.
    split; [by intros b' Hb'; rewrite lookup_delete_ne, Hrest|].
    split; [by intros _; apply lookup_delete_eq|done].
  - destruct Hloop as (Hrest & Hsome & Hobj). simpl.
    split; [by intros b' Hb'; rewrite Hbs, Hrest|]. split; [done|].
    intros _. split; [done|].
    apply (shrinks_trans b w w2); [by split|by apply shrinks_refl].
Qed.

(** ** Emptying a bucket, creating and deleting one *)

(** Every key starts with the empty prefix. *)
Lemma startswith_nil k : PyStr.startswith k "" = true.
Proof. by destruct k. Qed.

(** X14: with the bucket there and no fault scheduled, [delete_folder] with the
    empty prefix leaves the bucket without objects, however many it had,
    and [delete_bucket] after it deletes the bucket and returns [True]. *)
Theorem delete_folder_empties_then_delete_bucket (b : string) (w : world) :
  is_Some (buckets w !! b) → faults w = [] →
  ∃ w1 w2,
    s3_service.delete_folder b "" w = Some (w1, Return tt) ∧
    objects w1 b = ∅ ∧
    s3_service.delete_bucket b w1 = (w2, Return true) ∧
    buckets w2 = delete b (buckets w).
Proof.
  intros Hb Hnil.
  destruct (delete_folder_run b "" w)
    as (w1 & r & d & Hrun & _ & _ & _ & Hrest & Hsome & _ & Hfaults).
  destruct (Hfaults Hb Hnil) as [-> Hnil1].
  assert (Hempty : objects w1 b = ∅).
  { apply map_empty. intros k.
    apply (delete_folder_clears b "" w w1 k Hrun), startswith_nil. }
  destruct (proj2 Hsome Hb) as [m1 Hm1].
  assert (m1 = ∅) as -> by (by unfold objects in Hempty; rewrite Hm1 in Hempty).
  destruct (delete_bucket_within_a_page_run b w1 ∅ Hm1 Hnil1) as (w2 & Hdel & Hbs);
    [rewrite map_size_empty; lia|].
  exists w1, w2. do 3 (split; [done|]). rewrite Hbs. apply map_eq. intros b'.
  destruct (decide (b' = b)) as [->|Hne]; [by rewrite !lookup_delete_eq|].
  by rewrite !lookup_delete_ne, Hrest.
Qed.

(** X15: whenever [create_bucket] returns [True], the name was not in use
    and a bucket without objects has been added under it, nothing else
    changed; a [delete_bucket] right after, with no fault scheduled, returns
    [True] and leaves the buckets as they were before the two calls.  On a
    name that is in use [create_bucket] returns [False] and changes
    nothing. *)
Theorem create_bucket_then_delete (region b : string) (w : world) :
  (∀ w1, s3_service.create_bucket region b w = (w1, Return true) →
     buckets w !! b = None ∧
     buckets w1 = <[b := ∅]> (buckets w) ∧
     (faults w1 = [] →
      ∃ w2, s3_service.delete_bucket b w1 = (w2, Return true) ∧
            buckets w2 = buckets w)) ∧
  (is_Some (buckets w !! b) →
   ∃ w1, s3_service.create_bucket region b w = (w1, Return false) ∧
         buckets w1 = buckets w).
Proof.
  rewrite create_bucket_run. unfold handled.
  destruct (S3.create_bucket b region w) as [w0 [[]|e]] eqn:Hcreate;
    apply call_frame in Hcreate as (_ & _ & _ & _ & _ & Hsem).
  - destruct (acceptable_bucket_name b); [|done]. simpl in Hsem.
    case_bool_decide; [done|].
    destruct (buckets w !! b) as [m|] eqn:Hm; [done|]. injection Hsem as Hbs.
    split; [|by intros [? ?]].
    intros w1 [= <-]. do 2 (split; [done|]). intros Hnil.
    destruct (delete_bucket_within_a_page_run b w0 ∅) as (w2 & Hdel & Hbs2);
      [by rewrite <- Hbs; apply lookup_insert_eq|done|rewrite map_size_empty; lia|].
    exists w2. split; [done|]. rewrite Hbs2, <- Hbs.
    by rewrite delete_insert_eq, delete_id.
  - split; [by intros w1 [= _ ?]|]. intros _. by eexists.
Qed.

(** * What the routes make of the gateway *)

(** X16: moving a file to the folder it is in: the destination is the source,
    the provider refuses the copy, [move_file] deletes the source all the
    same, and the route returns as after any move.  The object is lost. *)
Theorem move_file_in_place (b dir name body : string) (w : world) (m : gmap string string) :
  buckets w !! b = Some m → m !! (dir +:+ name) = Some body → faults w = [] →
  dir = "" ∨ PyStr.endswith dir slash = true →
  has_char slash name = false →
  ∃ w', main.move_file b (dir +:+ name) dir w = (w', Return tt) ∧
        delta w w' = [(CopyObject b (dir +:+ name) b (dir +:+ name), Some InvalidRequest);
                      (DeleteObject b (dir +:+ name), None)] ∧
        stdout w' = stdout w ++ [("Copy failed:", InvalidRequest)] ∧
        objects w' b = delete (dir +:+ name) m.
Proof.
  intros Hm Hbody Hnil Hdir Hname.
  unfold main.move_file, main.destination_key, bind.
  rewrite last_segment_file_name by done. set (key := dir +:+ name) in *.
  rewrite move_file_run. unfold copy_object.
  rewrite call_no_fault by (by rewrite Hnil). rewrite Hm, Hbody, Hnil.
  rewrite bool_decide_eq_true_2 by done. simpl.
  unfold delete_object. rewrite call_no_fault by done. simpl. rewrite Hm. simpl.
  eexists. split; [reflexivity|].
  split; [by apply delta_app; simpl; rewrite <- app_assoc|].
  split; [done|]. unfold objects. simpl. by rewrite lookup_insert_eq.
Qed.

Lemma valid_bucket_name_truthy b : valid_bucket_name b = true → PyStr.truthy b = true.
Proof. by destruct b. Qed.

(** The guard lets a handler run when its required fields are not empty
    and its parameters are valid. *)
Lemma guard_passes required valid :
  forallb PyStr.truthy required = true → valid = true → main.guard required valid = None.
Proof. unfold main.guard. by intros -> ->. Qed.

(** X17: on form values that pass the validation of FastAPI and of the
    client (a bucket name that is well formed, a key, source key or folder
    prefix that is not empty, a file or folder name that is not empty, a
    destination key that is not empty), the routes for uploading, deleting
    a file, creating a folder, copying and moving end the same way whatever
    the gateway returned: with the redirect to the folder, also when the
    provider raised and the gateway returned [False].  The route for
    deleting a folder ends with the provider's exception when
    [delete_folder] does.  What fails the validation does not reach the
    provider: the copy route with an empty destination key ends with
    [ParamValidationError], the route for deleting a folder with an empty
    folder prefix is answered 422, and nothing has changed. *)
Theorem routes_never_report_failure (b p k name file dest : string) (w : world) :
  valid_bucket_name b = true → valid_key k = true → name ≠ "" →
  valid_key (main.destination_key k dest) = true →
  (main.upload_file b p name file w).2 = Return (main.redirect b p) ∧
  (main.delete_file b k p w).2 = Return (main.redirect b p) ∧
  (main.create_folder b p name w).2 = Return tt ∧
  (main.copy_file b k dest w).2 = inr (Return tt) ∧
  (main.move_file b k dest w).2 = Return tt ∧
  (head (faults w) = Some true →
   (s3_service.upload_file b file (p +:+ name) w).2 = Return false ∧
   buckets (main.upload_file b p name file w).1 = buckets w ∧
   (s3_service.delete_file b k w).2 = Return false ∧
   buckets (main.delete_file b k p w).1 = buckets w ∧
   ∃ w', main.delete_folder b k p w = Some (w', inr (Raise ServiceUnavailable)) ∧
         buckets w' = buckets w) ∧
  (main.destination_key k "" = "" →
   main.copy_file b k "" w = (w, inl main.ParamValidationError)) ∧
  main.delete_folder b "" p w = Some (w, inl main.UnprocessableEntity).
Proof.
  intros Hb Hk _ Hdk. pose proof (valid_bucket_name_truthy b Hb) as Hb'.
  assert (Hk' : PyStr.truthy k = true) by exact Hk.
  assert (Hthen : ∀ {A} (m : M bool) (a : A), catches m → ((m ;;; ret a) w).2 = Return a).
  { intros A m a Hm. unfold bind, ret. by destruct (Hm w) as (w' & x & ->). }
  split; [apply Hthen, catches_try|]. split; [apply Hthen, catches_try|].
  split; [apply Hthen, catches_try|]. split.
  { unfold main.copy_file. cbv zeta.
    rewrite guard_passes; [|cbn; by rewrite Hb', Hk'|by rewrite Hb, Hk, Hdk].
    pose proof (Hthen unit
                  (s3_service.copy_file b k b (main.destination_key k dest)) tt
                  (catches_try _ _ _)) as Hcopy.
    destruct ((_ ;;; ret tt) w) as [w' o]. simpl in *. by rewrite Hcopy. }
  split; [apply Hthen, catches_try|]. split.
  { intros Hf.
    assert (Hcall : ∀ {A} r sem, call (A := A) r sem w =
              (World (buckets w) (tail (faults w))
                 (trace w ++ [(r, Some ServiceUnavailable)]) (stdout w),
               Raise ServiceUnavailable)).
    { intros A r sem. unfold call. by destruct (faults w) as [|[] fs]. }
    unfold main.upload_file, main.delete_file, main.delete_folder, bind.
    rewrite guard_passes; [|cbn; by rewrite Hb', Hk'|done].
    rewrite upload_file_run, delete_file_run.
    unfold upload_fileobj, delete_object. rewrite !Hcall. simpl.
    do 4 (split; [done|]).
    rewrite delete_folder_loop. unfold page_bound. simpl. unfold list_objects_v2.
    rewrite Hcall. by eexists. }
  split.
  - intros Hempty. unfold main.copy_file, main.guard. cbv zeta. rewrite Hempty.
    cbn [forallb]. rewrite Hb', Hk', Hb, Hk. by rewrite andb_false_r.
  - unfold main.delete_folder, main.guard. cbn [forallb PyStr.truthy].
    by rewrite andb_false_r.
Qed.

(** * What a view shows, and what it no longer shows *)

Lemma startswith_inv k p : PyStr.startswith k p = true → ∃ rest, k = p +:+ rest.
Proof.
  unfold PyStr.startswith. revert k. induction p as [|a p IH]; intros k Hk.
  - by exists k.
  - destruct k as [|c k]; [done|]. simpl in Hk.
    destruct (ascii_dec a c) as [->|]; [|done].
    destruct (IH k Hk) as [rest ->]. exists rest. by rewrite append_cons.
Qed.

Lemma startswith_trans k q p :
  PyStr.startswith k q = true → PyStr.startswith q p = true → PyStr.startswith k p = true.
Proof.
  intros [r ->]%startswith_inv [r' ->]%startswith_inv.
  rewrite append_assoc. apply startswith_append.
Qed.

(** A string has no [c], or a first one. *)
Lemma first_sep c s :
  has_char c s = false ∨
  ∃ name rest, s = name +:+ String c rest ∧ has_char c name = false.
Proof.
  induction s as [|a s IH]; [by left|].
  simpl. destruct (Ascii.eqb a c) eqn:Ha.
  - right. apply Ascii.eqb_eq in Ha as ->. by exists "", s.
  - destruct IH as [Hs|(name & rest & -> & Hname)]; [by left|].
    right. exists (String a name), rest. split; [by rewrite append_cons|].
    simpl. by rewrite Ha.
Qed.

(** A key under the prefix is listed as itself when nothing but a name
    follows the prefix, and as the folder of the name up to the first ["/"]
    otherwise. *)
Lemma roll_up_cases p k :
  PyStr.startswith k p = true →
  (∃ name, k = p +:+ name ∧ has_char slash name = false ∧
           roll_up p "/" k = Object k) ∨
  (∃ name rest, k = p +:+ name +:+ "/" +:+ rest ∧ has_char slash name = false ∧
                roll_up p "/" k = CommonPrefix (p +:+ name +:+ "/")).
Proof.
  intros [s ->]%startswith_inv.
  destruct (first_sep slash s) as [Hs|(name & rest & -> & Hname)].
  - left. exists s. by rewrite roll_up_file.
  - right. exists name, rest. change (String slash rest) with ("/" +:+ rest).
    by rewrite roll_up_folder.
Qed.

Lemma elem_of_shown m p e :
  e ∈ shown m p →
  ∃ k, is_Some (m !! k) ∧ PyStr.startswith k p = true ∧ e = roll_up p "/" k.
Proof.
  unfold shown. intros (i & He%list_elem_of_lookup_2 & _)%elem_of_take.
  apply elem_of_remove_dups, list_elem_of_fmap in He as (k & -> & Hk).
  apply list_elem_of_filter in Hk as [Hp Hk%elem_of_sorted_keys].
  exists k. split; [done|]. split; [by apply Is_true_true|done].
Qed.

(** The files of a view are objects of the bucket, other than the prefix,
    with a name and nothing else after the prefix. *)
Lemma elem_of_shown_files m p k :
  k ∈ shown_files m p →
  k ≠ p ∧ is_Some (m !! k) ∧ ∃ name, k = p +:+ name ∧ has_char slash name = false.
Proof.
  unfold shown_files. intros (obj & -> & Hobj)%list_elem_of_fmap.
  apply list_elem_of_filter in Hobj as [Hne Hobj].
  apply list_elem_of_omap in Hobj as (e & (k & Hk & Hp & ->)%elem_of_shown & He).
  destruct (roll_up_cases p k Hp) as [(name & Hname & Hno & Hroll)|(? & ? & _ & _ & Hroll)];
    rewrite Hroll in He; [|done].
  injection He as <-. simpl in *. eauto.
Qed.

(** The folders of a view are the prefix, a name and a ["/"], and some
    object of the bucket is under each. *)
Lemma elem_of_shown_folders m p f :
  f ∈ shown_folders m p →
  ∃ name rest, f = p +:+ name +:+ "/" ∧ has_char slash name = false ∧
               is_Some (m !! (f +:+ rest)).
Proof.
  unfold shown_folders.
  intros (e & (k & Hk & Hp & ->)%elem_of_shown & He)%list_elem_of_omap.
  destruct (roll_up_cases p k Hp) as [(? & _ & _ & Hroll)|(name & rest & Hkey & Hno & Hroll)];
    rewrite Hroll in He; [done|].
  injection He as <-. exists name, rest. do 2 (split; [done|]).
  by rewrite !append_assoc, <- Hkey.
Qed.

(** A view never raises and changes no bucket; it shows what the one page
    of the listing has, or nothing when the listing fails. *)
Lemma view_bucket_cases b p w :
  ∃ w' v,
    main.view_bucket b p w = (w', Return v) ∧
    buckets w' = buckets w ∧ faults w' = tail (faults w) ∧
    ((∃ m, buckets w !! b = Some m ∧ head (faults w) ≠ Some true ∧
           main.folders v = shown_folders m p ∧ main.files v = shown_files m p) ∨
     ((buckets w !! b = None ∨ head (faults w) = Some true) ∧
      main.folders v = [] ∧ main.files v = [])).
Proof.
  unfold main.view_bucket, bind, ret.
  destruct (list_objects_cases b p w) as [(m & Hm & Hf & ->)|(e & Hwhy & ->)].
  - eexists _, _. split; [done|]. do 2 (split; [done|]). left. by exists m.
  - eexists _, _. split; [done|]. do 2 (split; [done|]). by right.
Qed.

(** X18: [list_objects] changes no bucket and shows nothing that is not
    there.  A file it returns is an object of the bucket, is not the prefix
    itself, and is the prefix followed by a name without ["/"]; a folder it
    returns is the prefix followed by a name without ["/"] and a ["/"], and
    some object of the bucket is under it. *)
Theorem list_objects_shows_children (b p : string) (w w' : world)
    (folders files : list string) :
  s3_service.list_objects b p w = (w', Return (folders, files)) →
  buckets w' = buckets w ∧
  (∀ k, k ∈ files →
     k ≠ p ∧ is_Some (objects w b !! k) ∧
     ∃ name, k = p +:+ name ∧ has_char slash name = false) ∧
  (∀ f, f ∈ folders →
     ∃ name rest, f = p +:+ name +:+ "/" ∧ has_char slash name = false ∧
                  is_Some (objects w b !! (f +:+ rest))).
Proof.
  destruct (list_objects_cases b p w) as [(m & Hm & _ & ->)|(e & _ & ->)];
    intros [= <- <- <-]; (split; [done|]).
  - unfold objects. rewrite Hm. simpl. split.
    + intros k. apply elem_of_shown_files.
    + intros f. apply elem_of_shown_folders.
  - split; intros x Hx; by apply elem_of_nil in Hx.
Qed.

(** X19: a bucket of at most [MaxKeys] objects, no fault scheduled for the
    request: [list_objects] shows the children of the prefix, all of them.
    For a name without ["/"], the prefix followed by the name is among the
    files exactly when the name is not empty and an object has that key, and
    the prefix followed by the name and a ["/"] is among the folders exactly
    when some object has a key that starts with it. *)
Theorem list_objects_within_a_page (b p : string) (w : world) (m : gmap string string) :
  buckets w !! b = Some m → size m ≤ MaxKeys → head (faults w) ≠ Some true →
  ∃ w' folders files,
    s3_service.list_objects b p w = (w', Return (folders, files)) ∧
    ∀ name, has_char slash name = false →
      (p +:+ name ∈ files ↔ name ≠ "" ∧ is_Some (m !! (p +:+ name))) ∧
      (p +:+ name +:+ "/" ∈ folders ↔
       ∃ rest, is_Some (m !! (p +:+ name +:+ "/" +:+ rest))).
Proof.
  intros Hm Hsize Hf.
  destruct (list_objects_cases b p w) as [(m' & Hm' & _ & ->)|(e & [Hb|Hf'] & _)];
    [|congruence..].
  rewrite Hm in Hm'. injection Hm' as <-.
  eexists _, _, _. split; [done|]. intros name Hname. split; split.
  - intros (Hne & Hk & _)%elem_of_shown_files. split; [|done].
    intros ->. by rewrite append_nil_r in Hne.
  - intros [Hne Hk]. apply file_shown; [done|done|apply startswith_append| |].
    + by apply roll_up_file.
    + rewrite <- (append_nil_r p) at 2. by intros Heq%(inj (String.app p)).
  - intros (name' & rest & _ & _ & Hk)%elem_of_shown_folders.
    exists rest. by rewrite !append_assoc in Hk.
  - intros [rest Hk]. apply (folder_shown _ _ (p +:+ name +:+ "/" +:+ rest)); [done|done| |].
    + apply startswith_append.
    + by apply roll_up_folder.
Qed.

(** X20: after [delete_folder] has returned, no view of the bucket shows a
    folder or a file whose key starts with the deleted prefix, and a view of
    the deleted prefix, or of any prefix under it, shows nothing. *)
Theorem delete_folder_then_view (b p : string) (w w1 : world) :
  s3_service.delete_folder b p w = Some (w1, Return tt) →
  ∀ q, ∃ w2 v,
    main.view_bucket b q w1 = (w2, Return v) ∧
    (∀ x, x ∈ main.folders v ++ main.files v → PyStr.startswith x p = false) ∧
    (PyStr.startswith q p = true → main.folders v = [] ∧ main.files v = []).
Proof.
  intros Hdel q.
  assert (Hgone : ∀ k, is_Some (objects w1 b !! k) → PyStr.startswith k p = false).
  { intros k [body Hk]. destruct (PyStr.startswith k p) eqn:Hp; [|done].
    by rewrite (delete_folder_clears b p w w1 k Hdel Hp) in Hk. }
  destruct (view_bucket_cases b q w1)
    as (w2 & v & Hview & _ & _ & [(m & Hm & _ & Hfolders & Hfiles)|(_ & Hfolders & Hfiles)]);
    exists w2, v; (split; [done|]); rewrite Hfolders, Hfiles;
    [|by split; [intros x Hx; apply elem_of_nil in Hx|]].
  unfold objects in Hgone. rewrite Hm in Hgone. simpl in Hgone.
  assert (Hnone : ∀ x, x ∈ shown_folders m q ++ shown_files m q →
                       PyStr.startswith x p = false).
  { intros x [Hx|Hx]%elem_of_app.
    - apply elem_of_shown_folders in Hx as (name & rest & _ & _ & Hk).
      destruct (PyStr.startswith x p) eqn:Hp; [|done].
      rewrite <- (Hgone _ Hk). symmetry.
      apply (startswith_trans _ x); [apply startswith_append|done].
    - apply elem_of_shown_files in Hx as (_ & Hk & _). by apply Hgone. }
  split; [done|]. intros Hq.
  assert (Hnil : shown_folders m q ++ shown_files m q = []).
  { destruct (shown_folders m q ++ shown_files m q) as [|x l] eqn:Hl; [done|].
    pose proof (Hnone x ltac:(left)) as Hp.
    assert (Hx : x ∈ shown_folders m q ++ shown_files m q) by (rewrite Hl; left).
    assert (PyStr.startswith x q = true) as Hxq.
    { apply elem_of_app in Hx as [Hx|Hx].
      - apply elem_of_shown_folders in Hx as (? & ? & -> & _). apply startswith_append.
      - apply elem_of_shown_files in Hx as (_ & _ & ? & -> & _). apply startswith_append. }
    by rewrite (startswith_trans x q p Hxq Hq) in Hp. }
  by apply app_eq_nil in Hnil.
Qed.

(** What [delete_file] leaves when it returns [True]. *)
Lemma delete_file_true b k w w1 :
  s3_service.delete_file b k w = (w1, Return true) →
  objects w1 b !! k = None ∧
  ∀ b' k', (b', k') ≠ (b, k) → objects w1 b' !! k' = objects w b' !! k'.
Proof.
  rewrite delete_file_run. unfold handled.
  destruct (delete_object b k w) as [w' [[]|e]] eqn:Hdel; intros [= <-].
  by apply delete_object_returns.
Qed.

(** X21: after [delete_file] has returned [True], no view of the bucket has
    the key among its files, and every file a view has was an object of the
    bucket before the delete. *)
Theorem delete_file_then_view (b k : string) (w w1 : world) :
  s3_service.delete_file b k w = (w1, Return true) →
  ∀ q, ∃ w2 v,
    main.view_bucket b q w1 = (w2, Return v) ∧
    (k ∉ main.files v) ∧
    (∀ k', k' ∈ main.files v → is_Some (objects w b !! k')).
Proof.
  intros [Hgone Hrest]%delete_file_true q.
  destruct (view_bucket_cases b q w1)
    as (w2 & v & Hview & _ & _ & [(m & Hm & _ & _ & Hfiles)|(_ & _ & Hfiles)]);
    exists w2, v; (split; [done|]); rewrite Hfiles;
    [|by split; [|intros k']; intros Hx%elem_of_nil].
  unfold objects in Hgone, Hrest. rewrite Hm in Hgone. simpl in Hgone.
  split.
  - intros (_ & [body Hk] & _)%elem_of_shown_files. by rewrite Hgone in Hk.
  - intros k' (_ & Hk & _)%elem_of_shown_files.
    destruct (decide (k' = k)) as [->|Hne]; [by rewrite Hgone in Hk; destruct Hk|].
    specialize (Hrest b k'). rewrite Hm in Hrest. simpl in Hrest.
    unfold objects. rewrite <- Hrest; [done|congruence].
Qed.


(** X23: copying or moving a file to another folder.  With no fault
    scheduled, a bucket name and keys that pass the client's validation and
    a destination key within the provider's limit, the copy route puts the
    body of the source at the destination path followed by the file name of
    the source, over whatever was there, and leaves everything else; the
    move route does the same and deletes the source.  The destination path
    is taken as it is: the routes put no ["/"] between it and the file
    name. *)
Theorem copy_and_move_to_folder (b dir name dest body : string) (w : world)
    (m : gmap string string) :
  buckets w !! b = Some m → m !! (dir +:+ name) = Some body → faults w = [] →
  dir = "" ∨ PyStr.endswith dir slash = true →
  has_char slash name = false →
  dest +:+ name ≠ dir +:+ name →
  valid_bucket_name b = true → valid_key (dir +:+ name) = true →
  valid_key (dest +:+ name) = true → String.length (dest +:+ name) ≤ max_key_length →
  (∃ w', main.copy_file b (dir +:+ name) dest w = (w', inr (Return tt)) ∧
         objects w' b = <[dest +:+ name := body]> m ∧
         (∀ b', b' ≠ b → buckets w' !! b' = buckets w !! b')) ∧
  (∃ w', main.move_file b (dir +:+ name) dest w = (w', Return tt) ∧
         objects w' b = delete (dir +:+ name) (<[dest +:+ name := body]> m) ∧
         objects w' b !! (dest +:+ name) = Some body ∧
         objects w' b !! (dir +:+ name) = None ∧
         (∀ b', b' ≠ b → buckets w' !! b' = buckets w !! b')).
Proof.
  intros Hm Hbody Hnil Hdir Hname Hne Hb Hsrc Hdst _.
  pose proof (valid_bucket_name_truthy b Hb) as Hb'.
  assert (Hsrc' : PyStr.truthy (dir +:+ name) = true) by exact Hsrc. split.
  - unfold main.copy_file, main.destination_key, bind.
    rewrite last_segment_file_name by done. cbv zeta.
    rewrite guard_passes; [|cbn; by rewrite Hb', Hsrc'|by rewrite Hb, Hsrc, Hdst].
    rewrite copy_file_run. unfold copy_object.
    rewrite call_no_fault by (by rewrite Hnil). rewrite Hm, Hbody, Hnil.
    rewrite bool_decide_eq_false_2 by (intros [_ Heq]; by apply Hne). simpl.
    eexists. split; [reflexivity|]. unfold objects. simpl. split.
    + by rewrite lookup_insert_eq.
    + intros b' Hb0. by rewrite lookup_insert_ne.
  - unfold main.move_file, main.destination_key, bind.
    rewrite last_segment_file_name by done. cbv zeta.
    rewrite move_file_run. unfold copy_object.
    rewrite call_no_fault by (by rewrite Hnil). rewrite Hm, Hbody, Hnil.
    rewrite bool_decide_eq_false_2 by (intros [_ Heq]; by apply Hne). simpl.
    unfold delete_object. rewrite call_no_fault by done. simpl.
    rewrite lookup_insert_eq. simpl.
    eexists. split; [reflexivity|]. unfold objects. simpl.
    rewrite lookup_insert_eq. simpl. split; [done|].
    split; [by rewrite lookup_delete_ne, lookup_insert_eq|].
    split; [by rewrite lookup_delete_eq|].
    intros b' Hb0. by rewrite !lookup_insert_ne.
Qed.


(** * The properties above on concrete buckets *)

Lemma breadcrumbs_of_folder_prefix_witness :
  main.breadcrumbs "docs/images/" = ["docs"; "images"].
Proof.
  apply (breadcrumbs_of_folder_prefix ["docs"; "images"]). by repeat constructor.
Defined.

Lemma parent_path_of_folder_prefix_witness :
  main.parent_path "docs/images/" = "docs/" ∧
  main.breadcrumbs (main.parent_path "docs/images/") = ["docs"].
Proof.
  apply (parent_path_of_folder_prefix ["docs"] "images"); [by repeat constructor|done].
Defined.

Lemma destination_key_file_name_witness :
  main.destination_key "a/b/x.txt" "c/" = "c/x.txt" ∧
  main.destination_key "a/b/" "c/" = "c/".
Proof.
  split.
  - apply (destination_key_file_name "a/b/" "x.txt" "c/"); [by right|done].
  - apply (destination_key_file_name "a/b/" "" "c/"); [by right|done].
Defined.

Lemma delete_file_removes_witness :
  (s3_service.delete_file "b" "a/x.txt" demo).2 = Return true ∧
  objects (s3_service.delete_file "b" "a/x.txt" demo).1 "b" !! "a/x.txt" = None ∧
  (s3_service.delete_file "b" "no/such.txt" demo).2 = Return true ∧
  buckets (s3_service.delete_file "b" "no/such.txt" demo).1 = buckets demo.
Proof.
  destruct (delete_file_removes "b" "a/x.txt" demo _ _ eq_refl eq_refl
              (surjective_pairing _)) as (Hgone & _ & Hreturns).
  destruct (delete_file_removes "b" "no/such.txt" demo _ _ eq_refl eq_refl
              (surjective_pairing _)) as (Hnoop & _ & Hreturns').
  assert (Hb : is_Some (buckets demo !! "b")) by (by eexists).
  assert (Hf : head (faults demo) ≠ Some true) by done.
  assert (Hr : (s3_service.delete_file "b" "a/x.txt" demo).2 = Return true)
    by (apply Hreturns; [done|by apply Nat.leb_le|done]).
  assert (Hr' : (s3_service.delete_file "b" "no/such.txt" demo).2 = Return true)
    by (apply Hreturns'; [done|by apply Nat.leb_le|done]).
  split; [done|]. split; [by apply Hgone|].
  split; [done|]. by apply Hnoop.
Defined.

Lemma upload_file_stores_witness :
  (s3_service.upload_file "b" "new" "a/y.txt" demo).2 = Return true ∧
  objects (s3_service.upload_file "b" "new" "a/y.txt" demo).1 "b" !! "a/y.txt" = Some "new" ∧
  objects (s3_service.upload_file "b" "new" "a/y.txt" demo).1 "b" !! "a/x.txt" = Some "x".
Proof.
  destruct (upload_file_stores "b" "new" "a/y.txt" demo _ _ eq_refl eq_refl
              (surjective_pairing _)) as (Hstored & _ & Hreturns).
  assert (Hr : (s3_service.upload_file "b" "new" "a/y.txt" demo).2 = Return true)
    by (apply Hreturns; [by eexists|by apply Nat.leb_le|done]).
  destruct (Hstored Hr) as [Hkey Hrest]. split; [done|]. split; [done|].
  by rewrite Hrest.
Defined.

Lemma copy_file_copies_witness :
  (s3_service.copy_file "b" "a/x.txt" "demo" "docs/x.txt" demo).2 = Return true ∧
  objects (s3_service.copy_file "b" "a/x.txt" "demo" "docs/x.txt" demo).1 "demo"
    !! "docs/x.txt" = Some "x" ∧
  (s3_service.copy_file "b" "a/x.txt" "b" "a/x.txt" demo).2 = Return false ∧
  (s3_service.copy_file "b" "a/none.txt" "b" "a/x.txt" demo).2 = Return false.
Proof.
  destruct (copy_file_copies "b" "a/x.txt" "demo" "docs/x.txt" demo _ _
              eq_refl eq_refl eq_refl eq_refl (surjective_pairing _)) as (Hcopied & _ & _).
  destruct (copy_file_copies "b" "a/x.txt" "b" "a/x.txt" demo _ _
              eq_refl eq_refl eq_refl eq_refl (surjective_pairing _)) as (_ & _ & Hself).
  destruct (copy_file_copies "b" "a/none.txt" "b" "a/x.txt" demo _ _
              eq_refl eq_refl eq_refl eq_refl (surjective_pairing _)) as (_ & _ & Hmissing).
  assert (Hr : (s3_service.copy_file "b" "a/x.txt" "demo" "docs/x.txt" demo).2 = Return true)
    by reflexivity.
  split; [done|]. destruct (Hcopied Hr) as (_ & body & Hsrc & Hdst & _).
  split; [|split; [by apply Hself; right|by apply Hmissing; left]].
  rewrite Hdst. rewrite <- Hsrc. reflexivity.
Defined.

Lemma move_file_duplicates_witness :
  ∃ w', s3_service.move_file "b" "a/x.txt" "b" "b/x.txt" demo_second_fails
          = (w', Return true) ∧
        objects w' "b" !! "a/x.txt" = Some "x" ∧
        objects w' "b" !! "b/x.txt" = Some "x".
Proof.
  set (w1 := (copy_object "b" "a/x.txt" "b" "b/x.txt" demo_second_fails).1).
  destruct (move_file_duplicates "b" "a/x.txt" "b" "b/x.txt" demo_second_fails
              w1 (delete_object "b" "a/x.txt" w1).1 ServiceUnavailable)
    as (w' & body & Hrun & _ & _ & Hsrc & Hkept & Hdst).
  - by rewrite (surjective_pairing (copy_object _ _ _ _ _)).
  - by rewrite (surjective_pairing (delete_object _ _ _)).
  - exists w'. split; [done|].
    assert (body = "x") as -> by (vm_compute in Hsrc; congruence). done.
Defined.

Lemma list_objects_one_page_witness :
  ∃ w' folders files,
    s3_service.list_objects "big" "f/" (big_folder 1001 []) = (w', Return (folders, files)) ∧
    length folders + length files ≤ 1000 ∧
    length (listed (objects (big_folder 1001 []) "big") "f/" None) = 1001.
Proof.
  destruct (list_objects_cases "big" "f/" (big_folder 1001 []))
    as [(m & _ & _ & Hrun)|(e & [Hb|Hf] & _)]; [|done..].
  eexists _, _, _. split; [exact Hrun|].
  split; [|vm_compute; reflexivity].
  by destruct (list_objects_one_page _ _ _ _ _ _ Hrun).
Defined.


Lemma upload_file_then_view_witness :
  ∃ w1 w2 v,
    main.upload_file "demo" "docs/" "notes.txt" "n" demo
      = (w1, Return "/bucket/demo?prefix=docs/") ∧
    main.view_bucket "demo" "docs/" w1 = (w2, Return v) ∧
    "docs/notes.txt" ∈ main.files v.
Proof.
  destruct (upload_file_then_view "demo" "docs/" "notes.txt" "n" demo (objects demo "demo"))
    as (w1 & w2 & v & Hup & _ & Hview & Hin); [done| |done|done| |].
  - apply Nat.ltb_lt. vm_compute. reflexivity.
  - by apply Nat.leb_le.
  - by exists w1, w2, v.
Defined.

Lemma delete_bucket_within_a_page_witness :
  ∃ w', s3_service.delete_bucket "demo" demo = (w', Return true) ∧
        buckets w' !! "demo" = None ∧
        delta demo w' = [(ListObjectsV2 "demo" "" None None, None);
                         (DeleteObject "demo" "docs/", None);
                         (DeleteObject "demo" "docs/readme.txt", None);
                         (DeleteObject "demo" "images/logo.png", None);
                         (DeleteBucket "demo", None)].
Proof.
  destruct (delete_bucket_within_a_page "demo" demo (objects demo "demo"))
    as (w' & Hrun & Hbs & Hd); [done|done| |].
  - apply Nat.leb_le. vm_compute. reflexivity.
  - exists w'. split; [done|]. split; [by rewrite Hbs|]. by rewrite Hd.
Defined.

Lemma delete_bucket_beyond_a_page_witness :
  ∃ w', s3_service.delete_bucket "big" (big_folder 1001 []) = (w', Return false) ∧
        size (objects (big_folder 1001 []) "big") = 1002 ∧
        size (objects w' "big") = 2.
Proof.
  destruct (delete_bucket_beyond_a_page "big" (big_folder 1001 [])
              (objects (big_folder 1001 []) "big"))
    as (w' & Hrun & _ & Hsize & _); [done|done| |].
  - apply Nat.ltb_lt. vm_compute. reflexivity.
  - exists w'. split; [done|]. split; [vm_compute; reflexivity|].
    rewrite Hsize. vm_compute. reflexivity.
Defined.

Lemma delete_bucket_outcome_witness :
  (s3_service.delete_bucket "demo" demo_third_fails).2 = Return false ∧
  shrinks "demo" demo_third_fails (s3_service.delete_bucket "demo" demo_third_fails).1 ∧
  objects (s3_service.delete_bucket "demo" demo_third_fails).1 "demo" !! "docs/" = None.
Proof.
  destruct (delete_bucket_outcome "demo" demo_third_fails _ _ eq_refl
              (surjective_pairing _)) as (_ & _ & Hfalse).
  destruct Hfalse as [Hr Hshrinks]; [by vm_compute|].
  split; [done|]. split; [done|]. vm_compute. reflexivity.
Defined.

Lemma delete_folder_empties_then_delete_bucket_witness :
  ∃ w1 w2,
    s3_service.delete_folder "big" "" (big_folder 1001 []) = Some (w1, Return tt) ∧
    s3_service.delete_bucket "big" w1 = (w2, Return true) ∧
    buckets w2 !! "big" = None.
Proof.
  destruct (delete_folder_empties_then_delete_bucket "big" (big_folder 1001 []))
    as (w1 & w2 & Hfolder & _ & Hbucket & Hbs); [by eexists|done|].
  exists w1, w2. do 2 (split; [done|]). rewrite Hbs. apply lookup_delete_eq.
Defined.

Lemma create_bucket_then_delete_witness :
  (∃ w1 w2,
     s3_service.create_bucket "eu-west-1" "new" demo = (w1, Return true) ∧
     buckets w1 !! "new" = Some ∅ ∧
     s3_service.delete_bucket "new" w1 = (w2, Return true) ∧
     buckets w2 = buckets demo) ∧
  (s3_service.create_bucket "eu-west-1" "demo" demo).2 = Return false.
Proof.
  destruct (create_bucket_then_delete "eu-west-1" "new" demo) as [Hfresh _].
  destruct (create_bucket_then_delete "eu-west-1" "demo" demo) as [_ Htaken].
  split.
  - destruct (Hfresh (s3_service.create_bucket "eu-west-1" "new" demo).1 eq_refl)
      as (_ & Hbs & Hdelete).
    destruct (Hdelete eq_refl) as (w2 & Hdel & Hbs2).
    exists (s3_service.create_bucket "eu-west-1" "new" demo).1, w2.
    split; [reflexivity|]. split; [|by split].
    rewrite Hbs. apply lookup_insert_eq.
  - destruct Htaken as (w1 & -> & _); [by eexists|done].
Defined.

Lemma move_file_in_place_witness :
  ∃ w', main.move_file "b" "a/x.txt" "a/" demo = (w', Return tt) ∧
        objects demo "b" !! "a/x.txt" = Some "x" ∧
        objects w' "b" !! "a/x.txt" = None.
Proof.
  destruct (move_file_in_place "b" "a/" "x.txt" "x" demo (objects demo "b"))
    as (w' & Hrun & _ & _ & Hobj); [done|done|done|by right|done|].
  exists w'. split; [done|]. split; [done|]. rewrite Hobj. apply lookup_delete_eq.
Defined.

Lemma routes_never_report_failure_witness :
  (main.upload_file "b" "a/" "y.txt" "new" demo_first_fails).2
    = Return "/bucket/b?prefix=a/" ∧
  (s3_service.upload_file "b" "new" "a/y.txt" demo_first_fails).2 = Return false ∧
  buckets (main.upload_file "b" "a/" "y.txt" "new" demo_first_fails).1
    = buckets demo_first_fails ∧
  (main.copy_file "b" "a/x.txt" "c/" demo_first_fails).2 = inr (Return tt) ∧
  main.copy_file "demo" "docs/" "" demo = (demo, inl main.ParamValidationError) ∧
  main.delete_folder "demo" "" "" demo = Some (demo, inl main.UnprocessableEntity).
Proof.
  destruct (routes_never_report_failure "b" "a/" "a/x.txt" "y.txt" "new" "c/" demo_first_fails)
    as (Hup & _ & _ & Hcopy & _ & Hfails & _); [done..|].
  destruct (routes_never_report_failure "demo" "" "docs/" "f" "" "c/" demo)
    as (_ & _ & _ & _ & _ & _ & Hinvalid & Hempty); [done..|].
  destruct Hfails as (Hfalse & Hbs & _); [done|].
  do 4 (split; [done|]). split; [by apply Hinvalid|done].
Defined.

Lemma list_objects_shows_children_witness :
  ∃ w' folders files,
    s3_service.list_objects "demo" "docs/" demo = (w', Return (folders, files)) ∧
    buckets w' = buckets demo ∧
    (∀ k, k ∈ files → is_Some (objects demo "demo" !! k)) ∧
    (∀ f, f ∈ folders → PyStr.startswith f "docs/" = true).
Proof.
  destruct (list_objects_cases "demo" "docs/" demo)
    as [(m & _ & _ & Hrun)|(e & [Hb|Hf] & _)]; [|done..].
  destruct (list_objects_shows_children _ _ _ _ _ _ Hrun) as (Hbs & Hfiles & Hfolders).
  eexists _, _, _. split; [exact Hrun|]. split; [done|]. split.
  - intros k Hk. by destruct (Hfiles k Hk) as (_ & ? & _).
  - intros f Hf. destruct (Hfolders f Hf) as (name & _ & -> & _).
    apply startswith_append.
Defined.

Lemma list_objects_within_a_page_witness :
  ∃ w' folders files,
    s3_service.list_objects "demo" "" demo = (w', Return (folders, files)) ∧
    "docs/" ∈ folders ∧ "images/" ∈ folders ∧ "readme.txt" ∉ files.
Proof.
  destruct (list_objects_within_a_page "demo" "" demo (objects demo "demo"))
    as (w' & folders & files & Hrun & Hall); [done| |done|].
  - apply Nat.leb_le. vm_compute. reflexivity.
  - exists w', folders, files. split; [done|].
    destruct (Hall "docs" eq_refl) as [_ Hdocs].
    destruct (Hall "images" eq_refl) as [_ Himages].
    destruct (Hall "readme.txt" eq_refl) as [Hreadme _].
    split; [apply Hdocs; by exists ""|]. split; [apply Himages; by exists "logo.png"|].
    intros [_ [body Hbody]]%Hreadme. vm_compute in Hbody. discriminate Hbody.
Defined.

Lemma delete_folder_then_view_witness :
  ∃ w1 w2 v,
    s3_service.delete_folder "demo" "docs/" demo = Some (w1, Return tt) ∧
    main.view_bucket "demo" "docs/" w1 = (w2, Return v) ∧
    main.folders v = [] ∧ main.files v = [].
Proof.
  destruct (delete_folder_run "demo" "docs/" demo)
    as (w1 & r & d & Hrun & _ & _ & _ & _ & _ & _ & Hr).
  destruct Hr as [-> _]; [by eexists|done|].
  destruct (delete_folder_then_view "demo" "docs/" demo w1 Hrun "docs/")
    as (w2 & v & Hview & _ & Hnil).
  exists w1, w2, v. split; [done|]. split; [done|]. by apply Hnil.
Defined.

Lemma delete_file_then_view_witness :
  ∃ w1, s3_service.delete_file "b" "a/x.txt" demo = (w1, Return true) ∧
        ∀ q, ∃ w2 v, main.view_bucket "b" q w1 = (w2, Return v) ∧
                     "a/x.txt" ∉ main.files v.
Proof.
  exists (s3_service.delete_file "b" "a/x.txt" demo).1. split; [reflexivity|].
  intros q.
  destruct (delete_file_then_view "b" "a/x.txt" demo _ eq_refl q) as (w2 & v & Hview & Hk & _).
  by exists w2, v.
Defined.


Lemma copy_and_move_to_folder_witness :
  (∃ w', main.copy_file "b" "a/x.txt" "c/" demo = (w', inr (Return tt)) ∧
         objects w' "b" !! "c/x.txt" = Some "x" ∧
         objects w' "b" !! "a/x.txt" = Some "x") ∧
  (∃ w', main.move_file "b" "a/x.txt" "c" demo = (w', Return tt) ∧
         objects w' "b" !! "cx.txt" = Some "x" ∧
         objects w' "b" !! "a/x.txt" = None).
Proof.
  destruct (copy_and_move_to_folder "b" "a/" "x.txt" "c/" "x" demo (objects demo "b"))
    as [(w1 & Hcopy & Hobj & _) _];
    [done|done|done|by right|done|done|done|done|done|by apply Nat.leb_le|].
  destruct (copy_and_move_to_folder "b" "a/" "x.txt" "c" "x" demo (objects demo "b"))
    as [_ (w2 & Hmove & _ & Hdst & Hsrc & _)];
    [done|done|done|by right|done|done|done|done|done|by apply Nat.leb_le|].
  split.
  - exists w1. split; [done|]. rewrite Hobj. by split.
  - exists w2. by split.
Defined.
